(** * Collaborative Canvas: the server's session and state engine

    A shallow embedding of the three server modules

    - [drawing-state.js]: the per-room command log with global undo / redo,
    - [rooms.js]: rooms, their users and the room manager,
    - [server.js]: the Socket.io event handlers and the in-flight strokes,

    followed by the properties of the command log, of the in-flight stroke
    table and of the room life cycle.

    JavaScript objects that the server mutates in place are modelled by
    explicit state passing: every method takes the state of its object and
    returns its result together with the new state.  [Date.now()] and
    [uuidv4()] are inputs of the handlers (record [Env]). *)

From Stdlib Require Import Floats.PrimFloat Strings.Ascii.
From stdpp Require Import gmap strings list fin_maps pretty.

Open Scope string_scope.
Open Scope list_scope.
Open Scope nat_scope.

(* ===================================================================== *)
(** * Data *)
(* ===================================================================== *)

(** A point [{ x, y }] of a stroke.  The server never computes with the
    coordinates, it stores and relays them. *)
Module Point.
Record t := mk { x : float; y : float }.
End Point.

(** An entry of the command log:
    [{ id, authorId, authorName, authorColor, points, color, width, tool,
       undone, timestamp }]. *)
Module Command.
Record t := mk {
  id : string;
  authorId : string;
  authorName : string;
  authorColor : string;
  points : list Point.t;
  color : string;
  width : float;
  tool : string;
  undone : bool;
  timestamp : Z
}.

(** [command.undone = b] *)
Definition set_undone (b : bool) (c : t) : t :=
  mk (id c) (authorId c) (authorName c) (authorColor c) (points c)
     (color c) (width c) (tool c) b (timestamp c).

(** [command.timestamp = now] *)
Definition set_timestamp (now : Z) (c : t) : t :=
  mk (id c) (authorId c) (authorName c) (authorColor c) (points c)
     (color c) (width c) (tool c) (undone c) now.

(** Every field of a command but its [undone] flag. *)
Definition payload (c : t) :
  string * string * string * string * list Point.t * string * float * string * Z :=
  (id c, authorId c, authorName c, authorColor c, points c, color c,
   width c, tool c, timestamp c).

(** The fields that the stroke gesture determines: all of them but the
    [undone] flag and the [timestamp], which [addCommand] stamps. *)
Definition stroke (c : t) :
  string * string * string * string * list Point.t * string * float * string :=
  (id c, authorId c, authorName c, authorColor c, points c, color c,
   width c, tool c).
End Command.

(** A JavaScript string is a sequence of UTF-16 code units.  The model
    holds it as the [string] of the bytes of its UTF-8 encoding, which is
    what a string literal of this file is; a surrogate without its partner
    is held as the three bytes of its generalised encoding.  Emptiness and
    equality of strings are those of the byte strings; lengths and
    positions are counted in code units. *)
Module JsString.

Definition byte (a : ascii) : N := N_of_ascii a.

(** A continuation byte [10xxxxxx]. *)
Definition continuation (a : ascii) : bool :=
  N.leb 128 (byte a) && N.ltb (byte a) 192.

(** The number of continuation bytes that belong to a lead byte. *)
Definition followers (a : ascii) : nat :=
  if N.ltb (byte a) 192 then 0
  else if N.ltb (byte a) 224 then 1
  else if N.ltb (byte a) 240 then 2
  else 3.

(** A lead byte [11110xxx] starts a code point above [U+FFFF], which takes
    two code units, a surrogate pair; every other code point takes one. *)
Definition astral (a : ascii) : bool := N.leb 240 (byte a).

(** The continuation bytes at the head of a string, [k] at most, and the
    rest of the string. *)
Fixpoint split_continuation (k : nat) (s : string) : string * string :=
  match k, s with
  | S k, String a rest =>
      if continuation a
      then let '(t, r) := split_continuation k rest in (String a t, r)
      else (EmptyString, s)
  | _, _ => (EmptyString, s)
  end.

Definition nth_byte (i : nat) (s : string) : N :=
  match String.get i s with
  | Some a => byte a
  | None => 0
  end.

(** The first code unit of the code point with the lead byte [lead] and
    the continuation bytes [t]: the high surrogate [0xD7C0 + (cp >> 10)],
    in its three bytes. *)
Definition high_surrogate (lead : ascii) (t : string) : string :=
  let high :=
    (55232 + ((byte lead mod 8) * 256 + (nth_byte 0 t mod 64) * 4
              + (nth_byte 1 t mod 64) / 16))%N in
  String (ascii_of_N 237)
    (String (ascii_of_N (128 + (high / 64) mod 64))
       (String (ascii_of_N (128 + high mod 64)) EmptyString)).

(** [str.slice(0, n)]: the first [n] code units of the string, all of it
    when it has fewer.  A cut inside a surrogate pair keeps the high
    surrogate. *)
Fixpoint slice_0 (n : nat) (s : string) : string :=
  match n with
  | O => EmptyString
  | S n1 =>
      match s with
      | EmptyString => EmptyString
      | String a rest =>
          let '(t, r) := split_continuation (followers a) rest in
          if astral a
          then
            match n1 with
            | O => high_surrogate a t
            | S n2 => String a (String.append t (slice_0 n2 r))
            end
          else String a (String.append t (slice_0 n1 r))
      end
  end.

(** [str.length]: the number of code units. *)
Fixpoint length (s : string) : nat :=
  match s with
  | EmptyString => 0
  | String a rest =>
      (if continuation a then 0 else if astral a then 2 else 1) + length rest
  end.

End JsString.

Arguments JsString.slice_0 : simpl never.

(* ===================================================================== *)
(** * drawing-state.js *)
(* ===================================================================== *)

Module DrawingState.

(** [this.commandLog] is the array of commands, [this.commandIndex] the
    [Map] of [commandId -> index in commandLog]. *)
Record t := mk {
  commandLog : list Command.t;
  commandIndex : gmap string nat
}.

(** [constructor()] *)
Definition new : t := mk [] ∅.

(** The value [{ action, commandId }] that [undo] and [redo] return. *)
Record Result := mkResult { action : string; commandId : string }.

(** [addCommand(command)]: stamps the command, records its position in
    the index, pushes it, and returns it. *)
Definition addCommand (now : Z) (command : Command.t) (s : t)
  : Command.t * t :=
  let command := Command.set_undone false command in
  let command := Command.set_timestamp now command in
  let commandIndex := <[Command.id command := length (commandLog s)]> (commandIndex s) in
  let commandLog := commandLog s ++ [command] in
  (command, mk commandLog commandIndex).

(** The loop [for (let i = n - 1; i >= 0; i--)] of [undo]; [k] is [i + 1],
    the number of iterations left.  An index outside the array is never
    read, since [i < n]; the model stops there. *)
Fixpoint undo_loop (log : list Command.t) (k : nat)
  : option Result * list Command.t :=
  match k with
  | O => (None, log)
  | S i =>
      match log !! i with
      | Some c =>
          if negb (Command.undone c)
          then (Some (mkResult "undo" (Command.id c)),
                <[i := Command.set_undone true c]> log)
          else undo_loop log i
      | None => (None, log)
      end
  end.

(** [undo()] *)
Definition undo (s : t) : option Result * t :=
  let '(r, log) := undo_loop (commandLog s) (length (commandLog s)) in
  (r, mk log (commandIndex s)).

(** The loop of [redo]. *)
Fixpoint redo_loop (log : list Command.t) (k : nat)
  : option Result * list Command.t :=
  match k with
  | O => (None, log)
  | S i =>
      match log !! i with
      | Some c =>
          if Command.undone c
          then (Some (mkResult "redo" (Command.id c)),
                <[i := Command.set_undone false c]> log)
          else redo_loop log i
      | None => (None, log)
      end
  end.

(** [redo()] *)
Definition redo (s : t) : option Result * t :=
  let '(r, log) := redo_loop (commandLog s) (length (commandLog s)) in
  (r, mk log (commandIndex s)).

(** [getFullState()] *)
Definition getFullState (s : t) : list Command.t := commandLog s.

(** [getActiveCommands()]: [commandLog.filter(cmd => !cmd.undone)] *)
Definition getActiveCommands (s : t) : list Command.t :=
  List.filter (fun cmd => negb (Command.undone cmd)) (commandLog s).

(** The three mutating operations of the log, as data. *)
Inductive op :=
| Append (now : Z) (command : Command.t)
| Undo
| Redo.

Definition apply (o : op) (s : t) : t :=
  match o with
  | Append now command => (addCommand now command s).2
  | Undo => (undo s).2
  | Redo => (redo s).2
  end.

(** The log after a sequence of operations, the first one first. *)
Definition run (ops : list op) (s : t) : t :=
  foldl (fun s o => apply o s) s ops.

(** The commands that a sequence of operations appends, in call order. *)
Fixpoint appended (ops : list op) : list Command.t :=
  match ops with
  | [] => []
  | Append _ command :: ops => command :: appended ops
  | _ :: ops => appended ops
  end.

End DrawingState.

(* ===================================================================== *)
(** * rooms.js *)
(* ===================================================================== *)

(** A JavaScript [Map] with string keys whose iteration order is observed:
    the entries in insertion order.  [set] on a present key keeps the
    position of the key. *)
Module JsMap.
Definition t (V : Type) : Type := list (string * V).

Definition get {V} (k : string) (m : t V) : option V :=
  snd <$> List.find (fun e => bool_decide (e.1 = k)) m.

Definition has {V} (k : string) (m : t V) : bool :=
  bool_decide (is_Some (get k m)).

Fixpoint set {V} (k : string) (v : V) (m : t V) : t V :=
  match m with
  | [] => [(k, v)]
  | e :: m => if bool_decide (e.1 = k) then (k, v) :: m else e :: set k v m
  end.

Definition delete {V} (k : string) (m : t V) : t V :=
  List.filter (fun e => negb (bool_decide (e.1 = k))) m.

Definition size {V} (m : t V) : nat := length m.

Definition values {V} (m : t V) : list V := map snd m.
End JsMap.

Module User.
(** [{ id, name, color, socketId }] *)
Record t := mk {
  id : string;
  name : string;
  color : string;
  socketId : string
}.

(** The entry [{ id, name, color }] of a user list. *)
Record info := mkInfo {
  info_id : string;
  info_name : string;
  info_color : string
}.

Definition to_info (u : t) : info := mkInfo (id u) (name u) (color u).
End User.

(** High-contrast palette. *)
Definition USER_COLORS : list string :=
  [ "#e74c3c"; "#3498db"; "#2ecc71"; "#f39c12"; "#9b59b6";
    "#1abc9c"; "#e67e22"; "#e91e63"; "#00bcd4"; "#ff5722" ].

Module Room.
Record t := mk {
  id : string;
  users : JsMap.t User.t;          (* socketId -> user *)
  drawingState : DrawingState.t;
  colorIndex : nat
}.

(** [constructor(roomId)] *)
Definition new (roomId : string) : t := mk roomId [] DrawingState.new 0.

(** [addUser(socketId, name)]; [uuid] is the value of [uuidv4()]. *)
Definition addUser (uuid : string) (socketId name : string) (r : t)
  : User.t * t :=
  let user :=
    User.mk uuid
      (if bool_decide (name = "")
       then "User " +:+ pretty (JsMap.size (users r) + 1)
       else name)
      (nth (colorIndex r mod length USER_COLORS) USER_COLORS "")
      socketId in
  (user,
   mk (id r) (JsMap.set socketId user (users r)) (drawingState r)
      (colorIndex r + 1)).

(** [removeUser(socketId)] *)
Definition removeUser (socketId : string) (r : t) : option User.t * t :=
  let user := JsMap.get socketId (users r) in
  (user,
   mk (id r) (JsMap.delete socketId (users r)) (drawingState r)
      (colorIndex r)).

(** [getUserList()] *)
Definition getUserList (r : t) : list User.info :=
  map User.to_info (JsMap.values (users r)).

(** [isEmpty()] *)
Definition isEmpty (r : t) : bool := Nat.eqb (JsMap.size (users r)) 0.

(** [getUser(socketId)] *)
Definition getUser (socketId : string) (r : t) : option User.t :=
  JsMap.get socketId (users r).
End Room.

Module RoomManager.
(** [this.rooms]: roomId -> Room *)
Abbreviation t := (gmap string Room.t).

Definition new : t := ∅.

(** [getOrCreateRoom(roomId)] *)
Definition getOrCreateRoom (roomId : string) (m : t) : Room.t * t :=
  match m !! roomId with
  | Some room => (room, m)
  | None => (Room.new roomId, <[roomId := Room.new roomId]> m)
  end.

(** [deleteRoom(roomId)] *)
Definition deleteRoom (roomId : string) (m : t) : t := delete roomId m.

(** [hasRoom(roomId)] *)
Definition hasRoom (roomId : string) (m : t) : bool :=
  bool_decide (is_Some (m !! roomId)).
End RoomManager.

(* ===================================================================== *)
(** * server.js *)
(* ===================================================================== *)

(** An in-flight stroke:
    [{ points, color, width, tool, authorId, authorName, authorColor }]. *)
Module Stroke.
Record t := mk {
  points : list Point.t;
  color : string;
  width : float;
  tool : string;
  authorId : string;
  authorName : string;
  authorColor : string
}.

(** [stroke.points.push(...points)] *)
Definition push_points (new_points : list Point.t) (s : t) : t :=
  mk (points s ++ new_points) (color s) (width s) (tool s)
     (authorId s) (authorName s) (authorColor s).
End Stroke.

(** The values that a handler gets from its environment.  [argLimit] is the
    largest number of arguments that the engine accepts in one call when
    the handler runs: a spread call [f(...xs)] with more elements throws a
    [RangeError]. *)
Record Env := mkEnv {
  uuid : string;     (* uuidv4() *)
  now : Z;           (* Date.now() *)
  argLimit : nat
}.

(** Events that a client sends, with their payloads.  A field that a handler
    tests for presence is an [option]. *)
Module ClientEvent.
Inductive t :=
| join_room (roomId : option string) (userName : option string)
| draw_start (strokeId : string) (points : option (list Point.t))
             (color : string) (width : float) (tool : string)
| draw_continue (strokeId : string) (points : option (list Point.t))
| draw_end (strokeId : string)
| cursor_move (x y : float)
| undo
| redo
| disconnect.
End ClientEvent.

(** Events that the server sends, with their payloads. *)
Module ServerEvent.
Inductive t :=
| error (message : string)
| room_state (users : list User.info) (commandLog : list Command.t)
             (myUser : User.t)
| user_joined (user : User.info)
| user_left (userId : string)
| draw_start (strokeId : string) (points : option (list Point.t))
             (color : string) (width : float) (tool : string)
             (authorId authorColor : string)
| draw_continue (strokeId : string) (points : list Point.t)
| draw_end (strokeId : string) (fullCommand : Command.t)
| cursor_move (userId name color : string) (x y : float)
| undo (result : DrawingState.Result)
| redo (result : DrawingState.Result).
End ServerEvent.

(** Where an event is sent. *)
Inductive Target :=
| ToSocket (socketId : string)             (* socket.emit *)
| ToOthers (socketId : string) (room : string) (* socket.to(room).emit *)
| ToRoom (room : string).                  (* io.to(room).emit *)

Definition Emit : Type := Target * ServerEvent.t.

Module Server.

(** The variables of one connection: [currentRoom] and [currentUser] of the
    connection handler's closure, and [socket.rooms], the Socket.io rooms
    that the socket has joined. *)
Record Conn := mkConn {
  currentRoom : option string;
  currentUser : option User.t;
  socket_rooms : gset string
}.

Record State := mk {
  roomManager : RoomManager.t;
  inFlightStrokes : gmap string (gmap string Stroke.t);  (* roomId -> strokeId -> stroke *)
  sockets : gmap string Conn                             (* socket.id -> connection *)
}.

(** The state at process start. *)
Definition init : State := mk RoomManager.new ∅ ∅.

Definition set_roomManager (m : RoomManager.t) (s : State) : State :=
  mk m (inFlightStrokes s) (sockets s).

Definition set_inFlightStrokes (f : gmap string (gmap string Stroke.t)) (s : State) : State :=
  mk (roomManager s) f (sockets s).

Definition set_conn (socketId : string) (c : Conn) (s : State) : State :=
  mk (roomManager s) (inFlightStrokes s) (<[socketId := c]> (sockets s)).

(** [getInFlightForRoom(roomId)] *)
Definition getInFlightForRoom (roomId : string) (s : State)
  : gmap string Stroke.t * State :=
  match inFlightStrokes s !! roomId with
  | Some roomFlights => (roomFlights, s)
  | None => (∅, set_inFlightStrokes (<[roomId := ∅]> (inFlightStrokes s)) s)
  end.

(** Writes a room's table of in-flight strokes back after a mutation. *)
Definition put_roomFlights (roomId : string) (roomFlights : gmap string Stroke.t)
  (s : State) : State :=
  set_inFlightStrokes (<[roomId := roomFlights]> (inFlightStrokes s)) s.

(** Writes a room back after a mutation. *)
Definition put_room (roomId : string) (room : Room.t) (s : State) : State :=
  set_roomManager (<[roomId := room]> (roomManager s)) s.

(** [roomManager.getOrCreateRoom(roomId)] *)
Definition getOrCreateRoom (roomId : string) (s : State) : Room.t * State :=
  let '(room, m) := RoomManager.getOrCreateRoom roomId (roomManager s) in
  (room, set_roomManager m s).

(** JavaScript truthiness of a variable that holds [null] or a string. *)
Definition truthy (v : option string) : bool :=
  match v with
  | Some str => negb (bool_decide (str = ""))
  | None => false
  end.

(** The guard [if (!currentRoom || !currentUser) return;]. *)
Definition with_room_and_user {A} (c : Conn) (ret : A) (k : string -> User.t -> A) : A :=
  match currentRoom c, currentUser c with
  | Some room, Some user => if truthy (Some room) then k room user else ret
  | _, _ => ret
  end.

(** The guard [if (!currentRoom) return;]. *)
Definition with_room {A} (c : Conn) (ret : A) (k : string -> A) : A :=
  match currentRoom c with
  | Some room => if truthy (Some room) then k room else ret
  | None => ret
  end.

(** ** The handlers

    Each handler runs for the socket [socketId], whose connection variables
    are [c], and returns the new state with the events it emits, in order. *)

(** [socket.on('join_room', ({ roomId, userName }) => ...)].  With a
    [roomId] and a [userName] that are strings or absent, as the event
    type has them, nothing in the [try] block throws, so the [catch] with
    its error [Failed to join room] is not reached. *)
Definition on_join_room (env : Env) (socketId : string) (c : Conn)
  (roomId userName : option string) (s : State) : State * list Emit :=
  match roomId with
  | Some roomId =>
      if negb (truthy (Some roomId))
      then (s, [(ToSocket socketId, ServerEvent.error "Invalid room ID")])
      else
        let safeName :=
          let sliced := JsString.slice_0 30 (default "" userName) in
          if bool_decide (sliced = "") then "Anonymous" else sliced in
        (* Leave previous room if any *)
        let socket_rooms :=
          match currentRoom c with
          | Some prev => if truthy (Some prev) then socket_rooms c ∖ {[prev]}
                         else socket_rooms c
          | None => socket_rooms c
          end in
        (* Join the new room *)
        let '(room, s) := getOrCreateRoom roomId s in
        let '(user, room) := Room.addUser (uuid env) socketId safeName room in
        let s := put_room roomId room s in
        let s := set_conn socketId
                   (mkConn (Some roomId) (Some user) (socket_rooms ∪ {[roomId]})) s in
        (s,
         [ (ToSocket socketId,
            ServerEvent.room_state (Room.getUserList room)
              (DrawingState.getFullState (Room.drawingState room)) user);
           (ToOthers socketId roomId,
            ServerEvent.user_joined (User.to_info user)) ])
  | None => (s, [(ToSocket socketId, ServerEvent.error "Invalid room ID")])
  end.

(** [socket.on('draw_start', ({ strokeId, points, color, width, tool }) => ...)] *)
Definition on_draw_start (socketId : string) (c : Conn)
  (strokeId : string) (points : option (list Point.t))
  (color : string) (width : float) (tool : string) (s : State)
  : State * list Emit :=
  with_room_and_user c (s, []) (fun currentRoom currentUser =>
    let '(roomFlights, s) := getInFlightForRoom currentRoom s in
    let roomFlights :=
      <[strokeId := Stroke.mk (default [] points) color width tool
                      (User.id currentUser) (User.name currentUser)
                      (User.color currentUser)]> roomFlights in
    (put_roomFlights currentRoom roomFlights s,
     [ (ToOthers socketId currentRoom,
        ServerEvent.draw_start strokeId points color width tool
          (User.id currentUser) (User.color currentUser)) ])).

(** [socket.on('draw_continue', ({ strokeId, points }) => ...)].  The spread
    in [stroke.points.push(...points)] throws before anything is pushed
    when [points] is absent ([TypeError]) or has more elements than the
    engine takes as arguments ([RangeError]); the handler catches the
    exception and logs it. *)
Definition on_draw_continue (env : Env) (socketId : string) (c : Conn)
  (strokeId : string) (points : option (list Point.t)) (s : State)
  : State * list Emit :=
  with_room_and_user c (s, []) (fun currentRoom currentUser =>
    let '(roomFlights, s) := getInFlightForRoom currentRoom s in
    match roomFlights !! strokeId with
    | None => (s, [])
    | Some stroke =>
        match points with
        | None => (s, [])
        | Some points =>
            if Nat.leb (length points) (argLimit env)
            then
              let stroke := Stroke.push_points points stroke in
              (put_roomFlights currentRoom (<[strokeId := stroke]> roomFlights) s,
               [ (ToOthers socketId currentRoom,
                  ServerEvent.draw_continue strokeId points) ])
            else (s, [])
        end
    end).

(** [socket.on('draw_end', ({ strokeId }) => ...)].  The object literal
    [command] has no [undone] and [timestamp] yet; [addCommand] sets both,
    whatever they were. *)
Definition on_draw_end (env : Env) (socketId : string) (c : Conn)
  (strokeId : string) (s : State) : State * list Emit :=
  with_room_and_user c (s, []) (fun currentRoom currentUser =>
    let '(roomFlights, s) := getInFlightForRoom currentRoom s in
    match roomFlights !! strokeId with
    | None => (s, [])
    | Some stroke =>
        (* Remove from in-flight *)
        let s := put_roomFlights currentRoom (delete strokeId roomFlights) s in
        let command :=
          Command.mk strokeId (Stroke.authorId stroke) (Stroke.authorName stroke)
            (Stroke.authorColor stroke) (Stroke.points stroke)
            (Stroke.color stroke) (Stroke.width stroke) (Stroke.tool stroke)
            false 0 in
        let '(room, s) := getOrCreateRoom currentRoom s in
        let '(command, drawingState) :=
          DrawingState.addCommand (now env) command (Room.drawingState room) in
        let room := Room.mk (Room.id room) (Room.users room) drawingState
                      (Room.colorIndex room) in
        (put_room currentRoom room s,
         [ (ToRoom currentRoom, ServerEvent.draw_end strokeId command) ])
    end).

(** [socket.on('cursor_move', ({ x, y }) => ...)] *)
Definition on_cursor_move (socketId : string) (c : Conn) (x y : float)
  (s : State) : State * list Emit :=
  with_room_and_user c (s, []) (fun currentRoom currentUser =>
    (s,
     [ (ToOthers socketId currentRoom,
        ServerEvent.cursor_move (User.id currentUser) (User.name currentUser)
          (User.color currentUser) x y) ])).

(** [socket.on('undo', () => ...)] *)
Definition on_undo (socketId : string) (c : Conn) (s : State)
  : State * list Emit :=
  with_room c (s, []) (fun currentRoom =>
    let '(room, s) := getOrCreateRoom currentRoom s in
    let '(result, drawingState) := DrawingState.undo (Room.drawingState room) in
    let room := Room.mk (Room.id room) (Room.users room) drawingState
                  (Room.colorIndex room) in
    let s := put_room currentRoom room s in
    match result with
    | Some result => (s, [(ToRoom currentRoom, ServerEvent.undo result)])
    | None => (s, [(ToSocket socketId, ServerEvent.error "Nothing to undo")])
    end).

(** [socket.on('redo', () => ...)] *)
Definition on_redo (socketId : string) (c : Conn) (s : State)
  : State * list Emit :=
  with_room c (s, []) (fun currentRoom =>
    let '(room, s) := getOrCreateRoom currentRoom s in
    let '(result, drawingState) := DrawingState.redo (Room.drawingState room) in
    let room := Room.mk (Room.id room) (Room.users room) drawingState
                  (Room.colorIndex room) in
    let s := put_room currentRoom room s in
    match result with
    | Some result => (s, [(ToRoom currentRoom, ServerEvent.redo result)])
    | None => (s, [(ToSocket socketId, ServerEvent.error "Nothing to redo")])
    end).

(** The loop of the disconnect handler over [roomFlights]: deletes the
    strokes with [stroke.authorId === (removedUser && removedUser.id)].
    An [authorId] is a string, so none equals [null]. *)
Definition discard_strokes_of (removedUser : option User.t)
  (roomFlights : gmap string Stroke.t) : gmap string Stroke.t :=
  match removedUser with
  | Some removedUser =>
      filter (fun e => Stroke.authorId e.2 ≠ User.id removedUser) roomFlights
  | None => roomFlights
  end.

(** [socket.on('disconnect', () => ...)] *)
Definition on_disconnect (socketId : string) (c : Conn) (s : State)
  : State * list Emit :=
  with_room c (s, []) (fun currentRoom =>
    let '(room, s) := getOrCreateRoom currentRoom s in
    let '(removedUser, room) := Room.removeUser socketId room in
    let s := put_room currentRoom room s in
    let out :=
      match removedUser with
      | Some removedUser =>
          [(ToOthers socketId currentRoom,
            ServerEvent.user_left (User.id removedUser))]
      | None => []
      end in
    (* Clean up in-flight strokes for this socket *)
    let '(roomFlights, s) := getInFlightForRoom currentRoom s in
    let s := put_roomFlights currentRoom
               (discard_strokes_of removedUser roomFlights) s in
    (* Delete empty rooms to free memory *)
    let s :=
      if Room.isEmpty room
      then set_inFlightStrokes (delete currentRoom (inFlightStrokes s))
             (set_roomManager (RoomManager.deleteRoom currentRoom (roomManager s)) s)
      else s in
    (s, out)).

(** [io.on('connection', (socket) => ...)]: the closure starts with
    [currentRoom = null] and [currentUser = null]; Socket.io has put the
    socket in the room of its own id. *)
Definition on_connection (socketId : string) (s : State) : State :=
  set_conn socketId (mkConn None None {[socketId]}) s.

(** What arrives at the server: a new connection, or an event on a socket. *)
Inductive Input :=
| Connection (socketId : string)
| Event (socketId : string) (env : Env) (e : ClientEvent.t).

(** The dispatch of one event to the handler of its socket.  A socket that
    is not connected has no handlers.  After its disconnect handler has run
    the socket is closed: Socket.io has emptied [socket.rooms] and delivers
    nothing more to it. *)
Definition handle (socketId : string) (env : Env) (e : ClientEvent.t) (s : State)
  : State * list Emit :=
  match sockets s !! socketId with
  | None => (s, [])
  | Some c =>
      match e with
      | ClientEvent.join_room roomId userName =>
          on_join_room env socketId c roomId userName s
      | ClientEvent.draw_start strokeId points color width tool =>
          on_draw_start socketId c strokeId points color width tool s
      | ClientEvent.draw_continue strokeId points =>
          on_draw_continue env socketId c strokeId points s
      | ClientEvent.draw_end strokeId => on_draw_end env socketId c strokeId s
      | ClientEvent.cursor_move x y => on_cursor_move socketId c x y s
      | ClientEvent.undo => on_undo socketId c s
      | ClientEvent.redo => on_redo socketId c s
      | ClientEvent.disconnect =>
          let '(s, out) := on_disconnect socketId c s in
          (mk (roomManager s) (inFlightStrokes s) (delete socketId (sockets s)), out)
      end
  end.

Definition step (i : Input) (s : State) : State * list Emit :=
  match i with
  | Connection socketId => (on_connection socketId s, [])
  | Event socketId env e => handle socketId env e s
  end.

(** The server run on a sequence of inputs, the first one first, with all
    the events emitted, in order. *)
Fixpoint run (inputs : list Input) (s : State) : State * list Emit :=
  match inputs with
  | [] => (s, [])
  | i :: inputs =>
      let '(s, out) := step i s in
      let '(s, out') := run inputs s in
      (s, out ++ out')
  end.

(** The command log of a room, for a room of the registry. *)
Definition commandLogOf (roomId : string) (s : State) : option (list Command.t) :=
  (fun room => DrawingState.commandLog (Room.drawingState room))
    <$> roomManager s !! roomId.

(** The in-flight strokes of a room; none when the room has no table. *)
Definition inFlightOf (roomId : string) (s : State) : gmap string Stroke.t :=
  default ∅ (inFlightStrokes s !! roomId).

(** The room that [getOrCreateRoom(roomId)] returns. *)
Definition roomOf (roomId : string) (s : State) : Room.t :=
  default (Room.new roomId) (roomManager s !! roomId).

(** The socket [socketId] is connected and has joined [room] as [user]:
    its [currentRoom] and [currentUser] are set. *)
Definition joined (socketId room : string) (user : User.t) (s : State) : Prop :=
  ∃ c, sockets s !! socketId = Some c
       ∧ currentRoom c = Some room ∧ room ≠ "" ∧ currentUser c = Some user.

(** The socket [socketId] is connected and has never joined a room. *)
Definition unjoined (socketId : string) (s : State) : Prop :=
  ∃ c, sockets s !! socketId = Some c
       ∧ currentRoom c = None ∧ currentUser c = None.

(** The stroke that [draw_start] stores. *)
Definition started (user : User.t) (points : option (list Point.t))
  (color : string) (width : float) (tool : string) : Stroke.t :=
  Stroke.mk (default [] points) color width tool
    (User.id user) (User.name user) (User.color user).


End Server.

(* ===================================================================== *)
(** * Predicates and concrete values used below *)
(* ===================================================================== *)

Definition is_undone (c : Command.t) : Prop := Command.undone c = true.
Definition is_active (c : Command.t) : Prop := Command.undone c = false.

(** The active commands of a log as the specification words them: the
    entries with [undone = false], in the order of the log. *)
Inductive active_in_order : list Command.t → list Command.t → Prop :=
| active_nil : active_in_order [] []
| active_keep c log act :
    Command.undone c = false → active_in_order log act →
    active_in_order (c :: log) (c :: act)
| active_skip c log act :
    Command.undone c = true → active_in_order log act →
    active_in_order (c :: log) act.

Definition ex_point : Point.t := Point.mk 1.5%float 2%float.

(** A one-point brush stroke of user [u1] with the id [i]. *)
Definition ex_cmd (i : string) : Command.t :=
  Command.mk i "u1" "Ann" "#e74c3c" [ex_point] "#000000" 4%float "brush" false 0.

(** The log after [a] and [b] were appended and [b] was undone. *)
Definition ex_log_ab : DrawingState.t :=
  DrawingState.run
    [DrawingState.Append 1 (ex_cmd "a"); DrawingState.Append 2 (ex_cmd "b");
     DrawingState.Undo] DrawingState.new.

(** The log that holds the one command [a]. *)
Definition ex_log_a : DrawingState.t :=
  DrawingState.run [DrawingState.Append 1 (ex_cmd "a")] DrawingState.new.






(** The events that need a joined connection. *)
Definition room_event (e : ClientEvent.t) : bool :=
  match e with
  | ClientEvent.draw_start _ _ _ _ _
  | ClientEvent.draw_continue _ _
  | ClientEvent.draw_end _
  | ClientEvent.cursor_move _ _
  | ClientEvent.undo
  | ClientEvent.redo => true
  | ClientEvent.join_room _ _
  | ClientEvent.disconnect => false
  end.

(** A connected socket [s1] that has not joined a room. *)
Definition ex_connected : Server.State :=
  (Server.run [Server.Connection "s1"] Server.init).1.

(** Socket [s1] has joined room [r1] as user [u1]. *)
Definition ex_joined : Server.State :=
  (Server.run
     [Server.Event "s1" (mkEnv "u1" 10 1000)
        (ClientEvent.join_room (Some "r1") (Some "Ann"))] ex_connected).1.

(** ... and has begun the stroke [k1]. *)
Definition ex_drawing : Server.State :=
  (Server.run
     [Server.Event "s1" (mkEnv "" 20 1000)
        (ClientEvent.draw_start "k1" (Some [ex_point]) "#000000" 4%float "brush")]
     ex_joined).1.

(** ... and has committed the stroke [k1]. *)
Definition ex_committed : Server.State :=
  (Server.run
     [Server.Event "s1" (mkEnv "" 30 1000) (ClientEvent.draw_end "k1")] ex_drawing).1.

(** Socket [s1] has joined room [r1] and then room [r2]. *)
Definition ex_two_joins : Server.State :=
  (Server.run
     [Server.Event "s1" (mkEnv "u2" 40 1000)
        (ClientEvent.join_room (Some "r2") (Some "Ann"))] ex_joined).1.

(** ... and has disconnected. *)
Definition ex_two_joins_gone : Server.State :=
  (Server.run
     [Server.Event "s1" (mkEnv "" 50 1000) ClientEvent.disconnect] ex_two_joins).1.

(** Sockets [s1] and [s2] are in room [r1]; [s1] has the stroke [k1] in
    flight and [s2] the stroke [k2]; [k0] of [s1] is committed. *)
Definition ex_two_users : Server.State :=
  (Server.run
     [Server.Connection "s2";
      Server.Event "s2" (mkEnv "u2" 31 1000)
        (ClientEvent.join_room (Some "r1") (Some "Bob"));
      Server.Event "s1" (mkEnv "" 32 1000)
        (ClientEvent.draw_start "k0" (Some [ex_point]) "#000000" 4%float "brush");
      Server.Event "s1" (mkEnv "" 33 1000) (ClientEvent.draw_end "k0");
      Server.Event "s1" (mkEnv "" 34 1000)
        (ClientEvent.draw_start "k1" (Some [ex_point]) "#000000" 4%float "brush");
      Server.Event "s2" (mkEnv "" 35 1000)
        (ClientEvent.draw_start "k2" (Some [ex_point]) "#ffffff" 4%float "eraser")]
     ex_joined).1.

(* ===================================================================== *)
(** * canvas.js: the client's copy of the command log *)
(* ===================================================================== *)

(** A stroke of [activeStrokes]: [{ points, color, width, tool, isLocal }];
    a remote stroke has no [isLocal]. *)
Module ActiveStroke.
Record t := mk {
  points : list Point.t;
  color : string;
  width : float;
  tool : string;
  isLocal : bool
}.

(** [stroke.points.push(...points)] *)
Definition push_points (new_points : list Point.t) (s : t) : t :=
  mk (points s ++ new_points) (color s) (width s) (tool s) (isLocal s).
End ActiveStroke.

(** A cursor of [remoteCursors]: [{ x, y, name, color }]. *)
Module Cursor.
Record t := mk { x : float; y : float; name : string; color : string }.
End Cursor.

(** The state of a [CanvasManager] apart from the canvas elements. *)
Module CanvasManager.
Record t := mk {
  commandLog : list Command.t;
  commandIndex : gmap string nat;
  activeStrokes : gmap string ActiveStroke.t;   (* strokeId -> stroke *)
  remoteCursors : gmap string Cursor.t          (* userId -> cursor *)
}.

(** The fields that the constructor initialises. *)
Definition new : t := mk [] ∅ ∅ ∅.

(** [commandLog.forEach((cmd, i) => this.commandIndex.set(cmd.id, i))],
    from the position [i] on. *)
Fixpoint index_from (i : nat) (log : list Command.t) (index : gmap string nat)
  : gmap string nat :=
  match log with
  | [] => index
  | cmd :: log => index_from (S i) log (<[Command.id cmd := i]> index)
  end.

(** [setCommandLog(commandLog)] *)
Definition setCommandLog (log : list Command.t) (cv : t) : t :=
  mk log (index_from 0 log ∅) (activeStrokes cv) (remoteCursors cv).

(** [addCommand(command)] *)
Definition addCommand (command : Command.t) (cv : t) : t :=
  mk (commandLog cv ++ [command])
     (<[Command.id command := length (commandLog cv)]> (commandIndex cv))
     (delete (Command.id command) (activeStrokes cv))
     (remoteCursors cv).

(** [this.commandLog[idx].undone = b] for the [idx] of [commandId], if the
    index has one.  An [idx] outside the log would throw at the
    assignment and leave the log as it is. *)
Definition set_flag (b : bool) (commandId : string) (cv : t) : t :=
  match commandIndex cv !! commandId with
  | Some idx =>
      match commandLog cv !! idx with
      | Some cmd =>
          mk (<[idx := Command.set_undone b cmd]> (commandLog cv))
             (commandIndex cv) (activeStrokes cv) (remoteCursors cv)
      | None => cv
      end
  | None => cv
  end.

(** [handleUndo(commandId)] *)
Definition handleUndo (commandId : string) (cv : t) : t := set_flag true commandId cv.

(** [handleRedo(commandId)] *)
Definition handleRedo (commandId : string) (cv : t) : t := set_flag false commandId cv.

(** [handleRemoteDrawStart(strokeId, points, color, width, tool)] *)
Definition handleRemoteDrawStart (strokeId : string) (points : option (list Point.t))
  (color : string) (width : float) (tool : string) (cv : t) : t :=
  mk (commandLog cv) (commandIndex cv)
     (<[strokeId := ActiveStroke.mk (default [] points) color width tool false]>
        (activeStrokes cv))
     (remoteCursors cv).

(** [handleRemoteDrawContinue(strokeId, points)].  [argLimit] is the largest
    number of arguments that the engine accepts in the call: with more
    points the spread in [stroke.points.push(...points)] throws a
    [RangeError] and the stroke stays as it is. *)
Definition handleRemoteDrawContinue (argLimit : nat) (strokeId : string)
  (points : list Point.t) (cv : t) : t :=
  match activeStrokes cv !! strokeId with
  | Some stroke =>
      if Nat.leb (length points) argLimit
      then
        mk (commandLog cv) (commandIndex cv)
           (<[strokeId := ActiveStroke.push_points points stroke]> (activeStrokes cv))
           (remoteCursors cv)
      else cv
  | None => cv
  end.

(** [startLocalStroke(strokeId, x, y, color, width, tool)] *)
Definition startLocalStroke (strokeId : string) (x y : float)
  (color : string) (width : float) (tool : string) (cv : t) : t :=
  mk (commandLog cv) (commandIndex cv)
     (<[strokeId := ActiveStroke.mk [Point.mk x y] color width tool true]>
        (activeStrokes cv))
     (remoteCursors cv).

(** [continueLocalStroke(strokeId, x, y)] *)
Definition continueLocalStroke (strokeId : string) (x y : float) (cv : t) : t :=
  match activeStrokes cv !! strokeId with
  | Some stroke =>
      mk (commandLog cv) (commandIndex cv)
         (<[strokeId := ActiveStroke.push_points [Point.mk x y] stroke]>
            (activeStrokes cv))
         (remoteCursors cv)
  | None => cv
  end.

(** [updateRemoteCursor(userId, x, y, name, color)] *)
Definition updateRemoteCursor (userId : string) (x y : float) (name color : string)
  (cv : t) : t :=
  mk (commandLog cv) (commandIndex cv) (activeStrokes cv)
     (<[userId := Cursor.mk x y name color]> (remoteCursors cv)).

(** [removeRemoteCursor(userId)] *)
Definition removeRemoteCursor (userId : string) (cv : t) : t :=
  mk (commandLog cv) (commandIndex cv) (activeStrokes cv)
     (delete userId (remoteCursors cv)).

(** The commands that [_paintMainCanvas()] draws, in the order of its
    [_drawStroke] calls. *)
Definition painted (cv : t) : list Command.t :=
  List.filter (fun cmd => negb (Command.undone cmd)) (commandLog cv).

(** The strokes that [renderInteractionLayer()] draws: those with a point. *)
Definition rendered (cv : t) : gmap string ActiveStroke.t :=
  filter (fun e => 0 < length (ActiveStroke.points e.2)) (activeStrokes cv).
End CanvasManager.

(* ===================================================================== *)
(** * Further predicates and concrete values *)
(* ===================================================================== *)

(** The entries of a list of commands with [undone = false]. *)
Abbreviation active := (List.filter (fun cmd => negb (Command.undone cmd))).

(** An index that maps each id of [ids] to the last position of that id,
    and nothing else. *)
Definition index_points_to_last (ids : list string) (index : gmap string nat) : Prop :=
  ∀ k i, index !! k = Some i
         ↔ ids !! i = Some k ∧ ∀ j, ids !! j = Some k → j ≤ i.

(** What a client does with its canvas when the server has applied the
    operation [o] to the log [s] of the room and broadcast the outcome
    (main.js): on [draw_end] it adds the [fullCommand], on [undo] and
    [redo] it flips the command of the [commandId]; an undo or redo that
    found nothing is not broadcast. *)
Definition follow (o : DrawingState.op) (s : DrawingState.t) (cv : CanvasManager.t)
  : CanvasManager.t :=
  match o with
  | DrawingState.Append now command =>
      CanvasManager.addCommand (DrawingState.addCommand now command s).1 cv
  | DrawingState.Undo =>
      match (DrawingState.undo s).1 with
      | Some r => CanvasManager.handleUndo (DrawingState.commandId r) cv
      | None => cv
      end
  | DrawingState.Redo =>
      match (DrawingState.redo s).1 with
      | Some r => CanvasManager.handleRedo (DrawingState.commandId r) cv
      | None => cv
      end
  end.

(** The server log and a client canvas after a sequence of operations that
    the client follows one by one. *)
Fixpoint mirror (ops : list DrawingState.op) (s : DrawingState.t) (cv : CanvasManager.t)
  : DrawingState.t * CanvasManager.t :=
  match ops with
  | [] => (s, cv)
  | o :: ops => mirror ops (DrawingState.apply o s) (follow o s cv)
  end.

(** Three appends with distinct ids, undos and redos in between. *)
Definition ex_ops : list DrawingState.op :=
  [DrawingState.Append 1 (ex_cmd "a"); DrawingState.Append 2 (ex_cmd "b");
   DrawingState.Undo; DrawingState.Undo; DrawingState.Redo;
   DrawingState.Append 3 (ex_cmd "c"); DrawingState.Redo; DrawingState.Undo].

(** The events of a stroke in progress and of the cursor. *)
Definition preview_event (e : ClientEvent.t) : bool :=
  match e with
  | ClientEvent.draw_start _ _ _ _ _
  | ClientEvent.draw_continue _ _
  | ClientEvent.cursor_move _ _ => true
  | _ => false
  end.

(** A room other than [room] is in the same state in [s] and [s']: its
    entry of the registry and its table of in-flight strokes. *)
Definition same_room_state (room' : string) (s s' : Server.State) : Prop :=
  Server.roomManager s' !! room' = Server.roomManager s !! room'
  ∧ Server.inFlightStrokes s' !! room' = Server.inFlightStrokes s !! room'.

(** The room whose state an event of a connection works on. *)
Definition target_room (c : Server.Conn) (e : ClientEvent.t) : option string :=
  match e with
  | ClientEvent.join_room roomId _ => roomId
  | _ => Server.currentRoom c
  end.

(** Every joined connection is a user of its current room, under its
    socket id, and holds that user in [currentUser]. *)
Definition conns_registered (s : Server.State) : Prop :=
  ∀ socketId c room,
    Server.sockets s !! socketId = Some c →
    Server.currentRoom c = Some room →
    room ≠ ""
    ∧ ∃ r u, Server.roomManager s !! room = Some r
             ∧ Room.getUser socketId r = Some u
             ∧ Server.currentUser c = Some u.

(** No room of the registry is empty. *)
Definition no_empty_room (s : Server.State) : Prop :=
  ∀ room r, Server.roomManager s !! room = Some r → Room.isEmpty r = false.

(** The keys of a room's user map are distinct. *)
Definition distinct_sockets (r : Room.t) : Prop := NoDup (map fst (Room.users r)).

(** The room [r0] after users were added for the sockets and names of
    [joins], with the given ids; and the users added, in order. *)
Fixpoint add_users (joins : list (string * string * string)) (r : Room.t)
  : list User.t * Room.t :=
  match joins with
  | [] => ([], r)
  | (uuid, socketId, name) :: joins =>
      let '(user, r) := Room.addUser uuid socketId name r in
      let '(users, r) := add_users joins r in
      (user :: users, r)
  end.

(* ===================================================================== *)
(** * The command log: undo and redo *)
(* ===================================================================== *)

Section CommandLog.

Import DrawingState.

Implicit Types (log : list Command.t) (c : Command.t) (s : DrawingState.t).

Lemma set_undone_payload b c :
  Command.payload (Command.set_undone b c) = Command.payload c.
Proof. reflexivity. Qed.

Lemma set_undone_undone b c : Command.undone (Command.set_undone b c) = b.
Proof. reflexivity. Qed.

Lemma set_undone_same c : Command.set_undone (Command.undone c) c = c.
Proof. by destruct c. Qed.

(** The scan of [undo] over the first [k] entries: either all of them are
    undone and nothing changes, or the last active one among them is
    flipped. *)
Lemma undo_loop_split log k :
  k ≤ length log →
  (Forall is_undone (take k log) ∧ undo_loop log k = (None, log)) ∨
  (∃ l1 c l2,
      take k log = l1 ++ c :: l2 ∧ is_active c ∧ Forall is_undone l2 ∧
      undo_loop log k =
        (Some (mkResult "undo" (Command.id c)),
         l1 ++ Command.set_undone true c :: l2 ++ drop k log)).
Proof.
  induction k as [|i IH]; intros Hk.
  - left. by rewrite take_0.
  - destruct (lookup_lt_is_Some_2 log i) as [c Hc]; [lia|].
    cbn [undo_loop]. rewrite Hc, (take_S_r _ _ _ Hc).
    destruct (Command.undone c) eqn:Hu; cbn [negb].
    + destruct IH as [[Hall ->]|(l1 & c0 & l2 & Ht & Ha & Hall & ->)]; [lia| |].
      * left. split; [|done]. apply Forall_app. split; [done|].
        by apply Forall_singleton.
      * right. exists l1, c0, (l2 ++ [c]). rewrite Ht.
        split; [by rewrite <-app_assoc|]. split; [done|].
        split; [apply Forall_app; split; [done|by apply Forall_singleton]|].
        rewrite (drop_S _ _ _ Hc). by rewrite <-!app_assoc.
    + right. exists (take i log), c, []. repeat split; try done.
      rewrite insert_take_drop by lia. done.
Qed.

Lemma redo_loop_split log k :
  k ≤ length log →
  (Forall is_active (take k log) ∧ redo_loop log k = (None, log)) ∨
  (∃ l1 c l2,
      take k log = l1 ++ c :: l2 ∧ is_undone c ∧ Forall is_active l2 ∧
      redo_loop log k =
        (Some (mkResult "redo" (Command.id c)),
         l1 ++ Command.set_undone false c :: l2 ++ drop k log)).
Proof.
  induction k as [|i IH]; intros Hk.
  - left. by rewrite take_0.
  - destruct (lookup_lt_is_Some_2 log i) as [c Hc]; [lia|].
    cbn [redo_loop]. rewrite Hc, (take_S_r _ _ _ Hc).
    destruct (Command.undone c) eqn:Hu.
    + right. exists (take i log), c, []. repeat split; try done.
      rewrite insert_take_drop by lia. done.
    + destruct IH as [[Hall ->]|(l1 & c0 & l2 & Ht & Ha & Hall & ->)]; [lia| |].
      * left. split; [|done]. apply Forall_app. split; [done|].
        by apply Forall_singleton.
      * right. exists l1, c0, (l2 ++ [c]). rewrite Ht.
        split; [by rewrite <-app_assoc|]. split; [done|].
        split; [apply Forall_app; split; [done|by apply Forall_singleton]|].
        rewrite (drop_S _ _ _ Hc). by rewrite <-!app_assoc.
Qed.

(** [undo] on a whole log. *)
Lemma undo_cases s :
  (Forall is_undone (commandLog s) ∧ undo s = (None, s)) ∨
  (∃ l1 c l2,
      commandLog s = l1 ++ c :: l2 ∧ is_active c ∧ Forall is_undone l2 ∧
      undo s =
        (Some (mkResult "undo" (Command.id c)),
         mk (l1 ++ Command.set_undone true c :: l2) (commandIndex s))).
Proof.
  unfold undo.
  destruct (undo_loop_split (commandLog s) (length (commandLog s)))
    as [[Hall ->]|(l1 & c & l2 & Ht & Ha & Hall & ->)]; [done| |].
  - left. rewrite firstn_all in Hall. split; [done|]. by destruct s.
  - right. exists l1, c, l2. rewrite firstn_all in Ht.
    rewrite drop_all, app_nil_r. done.
Qed.

Lemma redo_cases s :
  (Forall is_active (commandLog s) ∧ redo s = (None, s)) ∨
  (∃ l1 c l2,
      commandLog s = l1 ++ c :: l2 ∧ is_undone c ∧ Forall is_active l2 ∧
      redo s =
        (Some (mkResult "redo" (Command.id c)),
         mk (l1 ++ Command.set_undone false c :: l2) (commandIndex s))).
Proof.
  unfold redo.
  destruct (redo_loop_split (commandLog s) (length (commandLog s)))
    as [[Hall ->]|(l1 & c & l2 & Ht & Ha & Hall & ->)]; [done| |].
  - left. rewrite firstn_all in Hall. split; [done|]. by destruct s.
  - right. exists l1, c, l2. rewrite firstn_all in Ht.
    rewrite drop_all, app_nil_r. done.
Qed.

(** C5.  [undo()] flips the last entry with [undone = false] to [true] and
    returns its id; it returns nothing exactly when every entry is undone
    (in particular when the log is empty).  [redo()] flips the last entry
    with [undone = true] to [false] and returns its id; it returns nothing
    exactly when no entry is undone.  The flipped entry keeps its other
    fields, and no other entry changes. *)
Theorem undo_redo_flip_last_entry s :
  ((∃ l1 c l2,
       commandLog s = l1 ++ c :: l2 ∧
       Command.undone c = false ∧ Forall is_undone l2 ∧
       undo s =
         (Some (mkResult "undo" (Command.id c)),
          mk (l1 ++
              Command.mk (Command.id c) (Command.authorId c) (Command.authorName c)
                (Command.authorColor c) (Command.points c) (Command.color c)
                (Command.width c) (Command.tool c) true (Command.timestamp c)
              :: l2) (commandIndex s)))
   ∨ (Forall is_undone (commandLog s) ∧ undo s = (None, s)))
  ∧ ((undo s).1 = None ↔ Forall is_undone (commandLog s))
  ∧ ((∃ l1 c l2,
       commandLog s = l1 ++ c :: l2 ∧
       Command.undone c = true ∧ Forall is_active l2 ∧
       redo s =
         (Some (mkResult "redo" (Command.id c)),
          mk (l1 ++
              Command.mk (Command.id c) (Command.authorId c) (Command.authorName c)
                (Command.authorColor c) (Command.points c) (Command.color c)
                (Command.width c) (Command.tool c) false (Command.timestamp c)
              :: l2) (commandIndex s)))
   ∨ (Forall is_active (commandLog s) ∧ redo s = (None, s)))
  ∧ ((redo s).1 = None ↔ Forall is_active (commandLog s)).
Proof.
  split_and!.
  - destruct (undo_cases s) as [?|?]; [by right|by left].
  - destruct (undo_cases s) as [[Hall ->]|(l1 & c & l2 & Hlog & Ha & _ & ->)].
    + done.
    + split; [done|]. rewrite Hlog. intros Hall.
      apply Forall_app in Hall as [_ Hall]. apply Forall_cons in Hall as [Hc _].
      unfold is_undone, is_active in *. congruence.
  - destruct (redo_cases s) as [?|?]; [by right|by left].
  - destruct (redo_cases s) as [[Hall ->]|(l1 & c & l2 & Hlog & Ha & _ & ->)].
    + done.
    + split; [done|]. rewrite Hlog. intros Hall.
      apply Forall_app in Hall as [_ Hall]. apply Forall_cons in Hall as [Hc _].
      unfold is_undone, is_active in *. congruence.
Qed.

(** [undo] and [redo] keep every field of every entry but the [undone]
    flag, and keep the index. *)
Lemma undo_payload s :
  map Command.payload (commandLog (undo s).2) = map Command.payload (commandLog s)
  ∧ commandIndex (undo s).2 = commandIndex s.
Proof.
  destruct (undo_cases s) as [[_ ->]|(l1 & c & l2 & -> & _ & _ & ->)]; [done|].
  cbn. by rewrite !map_app.
Qed.

Lemma redo_payload s :
  map Command.payload (commandLog (redo s).2) = map Command.payload (commandLog s)
  ∧ commandIndex (redo s).2 = commandIndex s.
Proof.
  destruct (redo_cases s) as [[_ ->]|(l1 & c & l2 & -> & _ & _ & ->)]; [done|].
  cbn. by rewrite !map_app.
Qed.

(** When the last entry of the log is active, [undo] followed by [redo]
    gives the log back. *)
Lemma undo_redo_last_active s l c :
  commandLog s = l ++ [c] → Command.undone c = false →
  (redo (undo s).2).2 = s.
Proof.
  intros Hlog Hc. destruct s as [log idx]. cbn in Hlog. subst log.
  unfold undo. cbn [commandLog commandIndex].
  rewrite length_app, Nat.add_1_r. cbn [undo_loop].
  rewrite lookup_app_r, Nat.sub_diag by done. cbn [lookup list_lookup].
  rewrite Hc. cbn [negb snd].
  rewrite insert_app_r_alt, Nat.sub_diag by done. cbn [insert list_insert].
  unfold redo. cbn [commandLog commandIndex].
  rewrite length_app, Nat.add_1_r. cbn [redo_loop].
  rewrite lookup_app_r, Nat.sub_diag by done. cbn.
  rewrite insert_app_r_alt, Nat.sub_diag by done. cbn.
  destruct c; cbn in *; by subst.
Qed.

(** C1.  On the log [a (active), b (undone)], which two appends and one
    undo reach, [undo] flips [a] and the following [redo] flips [b], not
    [a]: the active commands were [a] before and are [b] after. *)
Theorem undo_then_redo_reactivates_other_entry :
  map (λ c, (Command.id c, Command.undone c)) (commandLog ex_log_ab)
    = [("a", false); ("b", true)]
  ∧ map Command.id (getActiveCommands ex_log_ab) = ["a"]
  ∧ (undo ex_log_ab).1 = Some (mkResult "undo" "a")
  ∧ (redo (undo ex_log_ab).2).1 = Some (mkResult "redo" "b")
  ∧ map Command.id (getActiveCommands (redo (undo ex_log_ab).2).2) = ["b"]
  ∧ getActiveCommands (redo (undo ex_log_ab).2).2 ≠ getActiveCommands ex_log_ab.
Proof.
  split_and!; try (vm_compute; reflexivity).
  intros Heq. apply (f_equal (map Command.id)) in Heq.
  vm_compute in Heq. discriminate Heq.
Qed.

(* --------------------------------------------------------------------- *)
(** ** Appending *)
(* --------------------------------------------------------------------- *)

(** C3, as stated, fails: the command [a] is appended a second time to a
    log whose index already holds its id. *)
Lemma addCommand_duplicate_id_not_rejected :
  ¬ (is_Some (commandIndex ex_log_a !! Command.id (ex_cmd "a")) →
     commandLog (addCommand 2 (ex_cmd "a") ex_log_a).2 = commandLog ex_log_a).
Proof.
  intros H.
  assert (Hin : is_Some (commandIndex ex_log_a !! Command.id (ex_cmd "a"))).
  { exists 0. vm_compute. reflexivity. }
  specialize (H Hin). apply (f_equal length) in H.
  vm_compute in H. discriminate H.
Qed.

(** C3, amended.  [addCommand] never rejects a command, whether its id is
    indexed or not: it returns the command with [undone = false], the
    current time as [timestamp] and its other fields as given, appends it
    as the last entry behind the unchanged entries, and points the index
    of its id at the new position; the log holds one more entry with that
    id than before. *)
Theorem addCommand_appends_always now c s :
  (addCommand now c s).1
    = Command.mk (Command.id c) (Command.authorId c) (Command.authorName c)
        (Command.authorColor c) (Command.points c) (Command.color c)
        (Command.width c) (Command.tool c) false now
  ∧ commandLog (addCommand now c s).2 = commandLog s ++ [(addCommand now c s).1]
  ∧ commandIndex (addCommand now c s).2
      = <[Command.id c := length (commandLog s)]> (commandIndex s)
  ∧ length (List.filter (λ e, bool_decide (Command.id e = Command.id c))
              (commandLog (addCommand now c s).2))
      = S (length (List.filter (λ e, bool_decide (Command.id e = Command.id c))
                     (commandLog s))).
Proof.
  split_and!; try reflexivity.
  cbn. rewrite List.filter_app, length_app. cbn.
  rewrite bool_decide_eq_true_2 by done. cbn. lia.
Qed.

(* --------------------------------------------------------------------- *)
(** ** Sequences of operations *)
(* --------------------------------------------------------------------- *)

Lemma filter_active_in_order log :
  active_in_order log (List.filter (λ cmd, negb (Command.undone cmd)) log).
Proof.
  induction log as [|c log IH]; cbn; [constructor|].
  destruct (Command.undone c) eqn:Hc; cbn; by constructor.
Qed.

Lemma apply_strokes o s :
  map Command.stroke (commandLog (apply o s))
  = map Command.stroke (commandLog s) ++ map Command.stroke (appended [o]).
Proof.
  assert (Hst : ∀ l l' : list Command.t,
             map Command.payload l = map Command.payload l' →
             map Command.stroke l = map Command.stroke l').
  { induction l as [|a l IH]; intros [|a' l'] Heq; try done.
    cbn in Heq. injection Heq as Ha Hl. cbn. f_equal; [|by apply IH].
    destruct a, a'. cbn in *. by simplify_eq. }
  destruct o as [now c| |]; cbn [apply appended].
  - cbn. by rewrite map_app.
  - cbn. rewrite app_nil_r. apply Hst, undo_payload.
  - cbn. rewrite app_nil_r. apply Hst, redo_payload.
Qed.

Lemma run_strokes ops s :
  map Command.stroke (commandLog (run ops s))
  = map Command.stroke (commandLog s) ++ map Command.stroke (appended ops).
Proof.
  revert s. induction ops as [|o ops IH]; intros s.
  - cbn. by rewrite app_nil_r.
  - change (run (o :: ops) s) with (run ops (apply o s)).
    rewrite IH, apply_strokes, <-app_assoc. f_equal.
    rewrite <-map_app. f_equal. by destruct o.
Qed.

(** C7.  After every sequence of appends, undos and redos on a new log,
    the entries of the log are the appended commands in append order, and
    [getActiveCommands()] is exactly the entries whose [undone] flag is
    false, in the order of the log. *)
Theorem active_commands_in_append_order ops :
  map Command.stroke (commandLog (run ops new)) = map Command.stroke (appended ops)
  ∧ active_in_order (commandLog (run ops new)) (getActiveCommands (run ops new))
  ∧ ∀ c, c ∈ getActiveCommands (run ops new)
         ↔ c ∈ commandLog (run ops new) ∧ Command.undone c = false.
Proof.
  split_and!.
  - by rewrite run_strokes.
  - apply filter_active_in_order.
  - intros c. unfold getActiveCommands.
    rewrite !list_elem_of_In, List.filter_In, negb_true_iff. done.
Qed.

(** C9.  An operation of the log keeps every entry at its position, with
    every field but the [undone] flag ([id], [authorId], [points] and the
    rest); the flag of an entry changes under [undo] and [redo] only. *)
Theorem log_entries_keep_position_and_payload o s i e :
  commandLog s !! i = Some e →
  ∃ e', commandLog (apply o s) !! i = Some e'
        ∧ Command.payload e' = Command.payload e
        ∧ Command.id e' = Command.id e
        ∧ Command.authorId e' = Command.authorId e
        ∧ Command.points e' = Command.points e
        ∧ (Command.undone e' ≠ Command.undone e → o = Undo ∨ o = Redo).
Proof.
  intros Hi.
  assert (Hfields : ∀ e', Command.payload e' = Command.payload e →
            Command.id e' = Command.id e ∧ Command.authorId e' = Command.authorId e
            ∧ Command.points e' = Command.points e).
  { intros e' He'. destruct e, e'. cbn in *. by simplify_eq. }
  assert (Hflip : ∀ s', map Command.payload (commandLog s') = map Command.payload (commandLog s) →
            ∃ e', commandLog s' !! i = Some e' ∧ Command.payload e' = Command.payload e).
  { intros s' Hmap.
    assert (Hl : map Command.payload (commandLog s') !! i = Some (Command.payload e)).
    { rewrite Hmap, list_lookup_fmap, Hi. done. }
    rewrite list_lookup_fmap in Hl.
    destruct (commandLog s' !! i) as [e'|]; [|done].
    exists e'. split; [done|]. cbn in Hl. congruence. }
  destruct o as [now c| |]; cbn [apply].
  - exists e. cbn. rewrite lookup_app_l by (by eapply lookup_lt_Some).
    split_and!; try done.
  - destruct (Hflip (undo s).2) as (e' & He' & Hp); [apply undo_payload|].
    exists e'. destruct (Hfields e' Hp) as (? & ? & ?). split_and!; auto.
  - destruct (Hflip (redo s).2) as (e' & He' & Hp); [apply redo_payload|].
    exists e'. destruct (Hfields e' Hp) as (? & ? & ?). split_and!; auto.
Qed.

Lemma log_entries_keep_position_and_payload_witness :
  ∃ e', commandLog (apply Undo ex_log_ab) !! 0 = Some e'
        ∧ Command.payload e' = Command.payload (Command.set_timestamp 1 (ex_cmd "a"))
        ∧ Command.id e' = "a"
        ∧ Command.authorId e' = "u1"
        ∧ Command.points e' = [ex_point]
        ∧ (Command.undone e' ≠ false → Undo = Undo ∨ Undo = Redo).
Proof.
  apply (log_entries_keep_position_and_payload Undo ex_log_ab 0
           (Command.set_timestamp 1 (ex_cmd "a"))).
  vm_compute. reflexivity.
Defined.

End CommandLog.

(* ===================================================================== *)
(** * The server: handlers on a joined connection *)
(* ===================================================================== *)

Section Handlers.

Import Server.

Implicit Types (s : State) (c : Conn) (room strokeId socketId : string).

Lemma inFlightOf_put room fl s :
  inFlightOf room (put_roomFlights room fl s) = fl.
Proof. unfold inFlightOf. cbn. by rewrite lookup_insert_eq. Qed.

Lemma inFlightOf_put_ne room room' fl s :
  room ≠ room' →
  inFlightStrokes (put_roomFlights room fl s) !! room' = inFlightStrokes s !! room'.
Proof. intros. cbn. by rewrite lookup_insert_ne. Qed.

(** [getInFlightForRoom] returns the table of the room, the empty one when
    it creates it; writing a table back afterwards hides the creation. *)
Lemma getInFlightForRoom_spec room s :
  (getInFlightForRoom room s).1 = inFlightOf room s
  ∧ roomManager (getInFlightForRoom room s).2 = roomManager s
  ∧ sockets (getInFlightForRoom room s).2 = sockets s
  ∧ inFlightOf room (getInFlightForRoom room s).2 = inFlightOf room s
  ∧ (∀ fl, put_roomFlights room fl (getInFlightForRoom room s).2 = put_roomFlights room fl s)
  ∧ (∀ room', room ≠ room' →
       inFlightStrokes (getInFlightForRoom room s).2 !! room' = inFlightStrokes s !! room').
Proof.
  unfold getInFlightForRoom, inFlightOf.
  destruct (inFlightStrokes s !! room) as [fl|] eqn:Hfl; cbn; rewrite ?Hfl.
  - done.
  - rewrite lookup_insert_eq. split_and!; try done.
    + intros fl. unfold put_roomFlights, set_inFlightStrokes. cbn.
      by rewrite insert_insert_eq.
    + intros room' Hne. by rewrite lookup_insert_ne.
Qed.

Lemma with_room_and_user_joined {A} c room user (ret : A) k :
  currentRoom c = Some room → room ≠ "" → currentUser c = Some user →
  with_room_and_user c ret k = k room user.
Proof.
  intros Hr Hne Hu. unfold with_room_and_user, truthy. rewrite Hr, Hu.
  by rewrite bool_decide_eq_false_2.
Qed.

Lemma with_room_joined {A} c room (ret : A) k :
  currentRoom c = Some room → room ≠ "" → with_room c ret k = k room.
Proof.
  intros Hr Hne. unfold with_room, truthy. rewrite Hr.
  by rewrite bool_decide_eq_false_2.
Qed.

Lemma on_draw_start_joined socketId c room user strokeId points color width tool s :
  currentRoom c = Some room → room ≠ "" → currentUser c = Some user →
  on_draw_start socketId c strokeId points color width tool s
  = (put_roomFlights room
       (<[strokeId := started user points color width tool]> (inFlightOf room s)) s,
     [(ToOthers socketId room,
       ServerEvent.draw_start strokeId points color width tool
         (User.id user) (User.color user))]).
Proof.
  intros Hr Hne Hu. unfold on_draw_start.
  rewrite (with_room_and_user_joined c room user) by done.
  destruct (getInFlightForRoom_spec room s) as (H1 & _ & _ & _ & H2 & _).
  destruct (getInFlightForRoom room s) as [fl s1]. cbn in H1, H2. subst fl.
  by rewrite H2.
Qed.


Lemma getOrCreateRoom_spec room s :
  (getOrCreateRoom room s).1 = roomOf room s
  ∧ inFlightStrokes (getOrCreateRoom room s).2 = inFlightStrokes s
  ∧ sockets (getOrCreateRoom room s).2 = sockets s
  ∧ (∀ r, put_room room r (getOrCreateRoom room s).2 = put_room room r s)
  ∧ (∀ room', room ≠ room' →
       roomManager (getOrCreateRoom room s).2 !! room' = roomManager s !! room').
Proof.
  unfold getOrCreateRoom, RoomManager.getOrCreateRoom, roomOf.
  destruct (roomManager s !! room) as [r|] eqn:Hr; cbn.
  - done.
  - split_and!; try done.
    + intros r. unfold put_room, set_roomManager. cbn. by rewrite insert_insert_eq.
    + intros room' Hne. by rewrite lookup_insert_ne.
Qed.





(* --------------------------------------------------------------------- *)
(** ** Beginning a stroke *)
(* --------------------------------------------------------------------- *)

(** C4, as stated, fails: [draw_start] on the stroke id [k1], which is in
    flight, replaces the entry of [k1]. *)
Lemma draw_start_tracked_id_replaces_entry :
  ¬ (is_Some (inFlightOf "r1" ex_drawing !! "k1") →
     inFlightOf "r1"
       (handle "s1" (mkEnv "" 21 1000)
          (ClientEvent.draw_start "k1" None "#ffffff" 9%float "eraser")
          ex_drawing).1 !! "k1"
     = inFlightOf "r1" ex_drawing !! "k1").
Proof.
  intros H.
  assert (Hin : is_Some (inFlightOf "r1" ex_drawing !! "k1")).
  { eexists. vm_compute. reflexivity. }
  specialize (H Hin).
  apply (f_equal (fmap Stroke.color)) in H. vm_compute in H. discriminate H.
Qed.

(** C4, amended.  On a joined connection [draw_start] never fails: whether
    or not the stroke id is tracked, afterwards the in-flight table of the
    room holds under the stroke id the stroke just begun, with the given
    points and the author data of the connection's user; the other entries
    of the table are unchanged, and the start is relayed to the others. *)
Theorem draw_start_stores_entry socketId room user env strokeId points color width tool s :
  joined socketId room user s →
  let r := handle socketId env
             (ClientEvent.draw_start strokeId points color width tool) s in
  inFlightOf room r.1 !! strokeId
    = Some (Stroke.mk (default [] points) color width tool
              (User.id user) (User.name user) (User.color user))
  ∧ (∀ k, k ≠ strokeId → inFlightOf room r.1 !! k = inFlightOf room s !! k)
  ∧ roomManager r.1 = roomManager s
  ∧ r.2 = [(ToOthers socketId room,
            ServerEvent.draw_start strokeId points color width tool
              (User.id user) (User.color user))].
Proof.
  intros (c & Hc & Hr & Hne & Hu). cbn zeta. unfold handle. rewrite Hc.
  rewrite (on_draw_start_joined _ c room user) by done. cbn [fst snd].
  rewrite inFlightOf_put. split_and!; try done.
  - by rewrite lookup_insert_eq.
  - intros k Hk. by rewrite lookup_insert_ne.
Qed.

Lemma draw_start_stores_entry_witness :
  joined "s1" "r1" (User.mk "u1" "Ann" "#e74c3c" "s1") ex_drawing
  ∧ inFlightOf "r1"
      (handle "s1" (mkEnv "" 21 1000)
         (ClientEvent.draw_start "k1" None "#ffffff" 9%float "eraser")
         ex_drawing).1 !! "k1"
    = Some (Stroke.mk [] "#ffffff" 9%float "eraser" "u1" "Ann" "#e74c3c").
Proof.
  assert (Hj : joined "s1" "r1" (User.mk "u1" "Ann" "#e74c3c" "s1") ex_drawing).
  { eexists. split_and!; [vm_compute; reflexivity|reflexivity|discriminate|reflexivity]. }
  split; [exact Hj|].
  apply (draw_start_stores_entry "s1" "r1" _ (mkEnv "" 21 1000) "k1" None
           "#ffffff" 9%float "eraser" ex_drawing Hj).
Defined.

(* --------------------------------------------------------------------- *)
(** ** Connections that have not joined *)
(* --------------------------------------------------------------------- *)

(** C10.  On a connection that has never joined a room, with [currentRoom]
    and [currentUser] unset, each of [draw_start], [draw_continue],
    [draw_end], [cursor_move], [undo] and [redo] leaves the whole state as
    it is (the registry, every command log, every in-flight table) and
    emits nothing. *)
Theorem unjoined_events_change_nothing socketId env e s :
  unjoined socketId s → room_event e = true →
  handle socketId env e s = (s, []).
Proof.
  intros (c & Hc & Hr & Hu) He. unfold handle. rewrite Hc.
  destruct e; try discriminate He;
    unfold on_draw_start, on_draw_continue, on_draw_end, on_cursor_move,
      on_undo, on_redo, with_room_and_user, with_room;
    by rewrite Hr.
Qed.

Lemma unjoined_events_change_nothing_witness :
  unjoined "s1" ex_connected
  ∧ room_event (ClientEvent.draw_end "k1") = true
  ∧ handle "s1" (mkEnv "" 5 1000) (ClientEvent.draw_end "k1") ex_connected
    = (ex_connected, []).
Proof.
  assert (Hu : unjoined "s1" ex_connected).
  { eexists. split_and!; [vm_compute; reflexivity|reflexivity|reflexivity]. }
  split_and!; [exact Hu|reflexivity|].
  apply (unjoined_events_change_nothing "s1" (mkEnv "" 5 1000)
           (ClientEvent.draw_end "k1") ex_connected Hu).
  reflexivity.
Defined.

(* --------------------------------------------------------------------- *)
(** ** Disconnecting *)
(* --------------------------------------------------------------------- *)

(** C8, as stated, fails: when the only user of room [r1] disconnects, the
    room is deleted, and its command log with it. *)
Lemma disconnect_of_last_user_drops_log :
  ¬ (commandLogOf "r1"
       (handle "s1" (mkEnv "" 50 1000) ClientEvent.disconnect ex_committed).1
     = commandLogOf "r1" ex_committed).
Proof.
  intros H. apply (f_equal (fmap (map Command.id))) in H.
  vm_compute in H. discriminate H.
Qed.

(** C8, amended.  When a user of a room disconnects, no in-flight stroke
    of the room with the [authorId] of that user is left.  If other users
    remain in the room, the command log of the room is unchanged, and the
    in-flight strokes of the other authors are kept.  If the user was the
    last one, the room leaves the registry, with its command log and its
    in-flight table. *)
Theorem disconnect_discards_strokes_of_user socketId c room r u env s :
  sockets s !! socketId = Some c →
  currentRoom c = Some room → room ≠ "" →
  roomManager s !! room = Some r →
  Room.getUser socketId r = Some u →
  let s' := (handle socketId env ClientEvent.disconnect s).1 in
  (∀ k stroke, inFlightOf room s' !! k = Some stroke →
               Stroke.authorId stroke ≠ User.id u)
  ∧ (if Room.isEmpty (Room.removeUser socketId r).2
     then roomManager s' !! room = None ∧ inFlightStrokes s' !! room = None
     else commandLogOf room s' = commandLogOf room s
          ∧ ∀ k stroke,
              inFlightOf room s' !! k = Some stroke
              ↔ inFlightOf room s !! k = Some stroke
                ∧ Stroke.authorId stroke ≠ User.id u).
Proof.
  intros Hc Hr Hne Hrm Hu. cbn zeta. unfold handle. rewrite Hc.
  unfold on_disconnect. rewrite (with_room_joined c room) by done.
  unfold getOrCreateRoom, RoomManager.getOrCreateRoom. rewrite Hrm.
  unfold Room.removeUser. unfold Room.getUser in Hu. rewrite Hu.
  set (r' := Room.mk _ _ _ _).
  set (s1 := put_room room r' _).
  destruct (getInFlightForRoom_spec room s1) as (H1 & _ & _ & _ & H2 & _).
  destruct (getInFlightForRoom room s1) as [fl s2]. cbn [fst snd] in H1, H2.
  rewrite H2. subst fl. change (inFlightOf room s1) with (inFlightOf room s).
  set (kept := discard_strokes_of (Some u) (inFlightOf room s)).
  assert (Hkept : ∀ k stroke,
            kept !! k = Some stroke
            ↔ inFlightOf room s !! k = Some stroke
              ∧ Stroke.authorId stroke ≠ User.id u).
  { intros k stroke. unfold kept, discard_strokes_of.
    by rewrite map_lookup_filter_Some. }
  clearbody kept.
  change (Room.isEmpty (_, _).2) with (Room.isEmpty r').
  destruct (Room.isEmpty r') eqn:Hempty; cbn [fst snd].
  - split.
    + intros k stroke. unfold inFlightOf at 1. cbn.
      rewrite lookup_delete_eq. cbn [default]. intros Hk.
      by apply lookup_empty_Some in Hk.
    + cbn. unfold RoomManager.deleteRoom. split; apply lookup_delete_eq.
  - split; [|split].
    + intros k stroke. unfold inFlightOf at 1. cbn. rewrite lookup_insert_eq. cbn.
      intros Hk. by apply Hkept in Hk as [_ ?].
    + unfold commandLogOf. cbn. rewrite lookup_insert_eq, Hrm. done.
    + intros k stroke. unfold inFlightOf at 1. cbn. rewrite lookup_insert_eq. cbn.
      apply Hkept.
Qed.

Lemma disconnect_discards_strokes_of_user_witness :
  let s' := (handle "s1" (mkEnv "" 50 1000) ClientEvent.disconnect ex_two_users).1 in
  Room.getUser "s1" (roomOf "r1" ex_two_users)
    = Some (User.mk "u1" "Ann" "#e74c3c" "s1")
  ∧ map Command.id <$> commandLogOf "r1" ex_two_users = Some ["k0"]
  ∧ commandLogOf "r1" s' = commandLogOf "r1" ex_two_users
  ∧ (Stroke.authorId <$> inFlightOf "r1" ex_two_users !! "k1") = Some "u1"
  ∧ inFlightOf "r1" s' !! "k1" = None
  ∧ (Stroke.authorId <$> inFlightOf "r1" s' !! "k2") = Some "u2".
Proof.
  intros s'.
  assert (Hc : sockets ex_two_users !! "s1"
               = Some (mkConn (Some "r1") (Some (User.mk "u1" "Ann" "#e74c3c" "s1"))
                         {["s1"; "r1"]})) by (vm_compute; reflexivity).
  assert (Hrm : roomManager ex_two_users !! "r1" = Some (roomOf "r1" ex_two_users))
    by (vm_compute; reflexivity).
  assert (Hu : Room.getUser "s1" (roomOf "r1" ex_two_users)
               = Some (User.mk "u1" "Ann" "#e74c3c" "s1")) by (vm_compute; reflexivity).
  assert (Hne : "r1" ≠ "") by discriminate.
  destruct (disconnect_discards_strokes_of_user "s1" _ "r1" _ _ (mkEnv "" 50 1000)
              ex_two_users Hc eq_refl Hne Hrm Hu) as [Hgone Hrest].
  assert (He : Room.isEmpty (Room.removeUser "s1" (roomOf "r1" ex_two_users)).2 = false)
    by (vm_compute; reflexivity).
  rewrite He in Hrest. destruct Hrest as [Hlog Hkept].
  split_and!; [exact Hu|vm_compute; reflexivity|exact Hlog|vm_compute; reflexivity| |].
  - destruct (inFlightOf "r1" s' !! "k1") as [stroke|] eqn:Hk; [|reflexivity].
    apply Hkept in Hk as [Hk Hauthor]. exfalso. apply Hauthor.
    vm_compute in Hk. injection Hk as <-. reflexivity.
  - vm_compute. reflexivity.
Defined.

(* --------------------------------------------------------------------- *)
(** ** Joining a second room *)
(* --------------------------------------------------------------------- *)

(** [join_room] touches no room of the registry but the one it joins: a
    room joined before keeps its users, the joining socket's user among
    them. *)
Lemma join_room_keeps_other_rooms socketId c env roomId userName room' s :
  sockets s !! socketId = Some c →
  room' ≠ roomId →
  roomManager (handle socketId env
                 (ClientEvent.join_room (Some roomId) userName) s).1 !! room'
  = roomManager s !! room'.
Proof.
  intros Hc Hne. unfold handle. rewrite Hc. unfold on_join_room.
  destruct (negb (truthy (Some roomId))); [done|].
  destruct (getOrCreateRoom_spec roomId s) as (_ & _ & _ & G2 & G3).
  destruct (getOrCreateRoom roomId s) as [r s1]. cbn [fst snd] in G2, G3.
  cbn. rewrite lookup_insert_ne by done. by apply G3.
Qed.

(** C2.  Socket [s1] joins room [r1] and then room [r2].  The second join
    takes the socket out of the Socket.io room [r1], so that it is in the
    room of its own id and in [r2], but the user [u1] of
    the socket stays in the user map of the room [r1].  When the socket
    disconnects, only [r2] is cleaned up and deleted: [r1] stays in the
    registry, not empty, though no socket is connected any more. *)
Theorem second_join_keeps_user_in_prior_room :
  (Room.getUser "s1" <$> roomManager ex_two_joins !! "r1")
    = Some (Some (User.mk "u1" "Ann" "#e74c3c" "s1"))
  ∧ (currentRoom <$> sockets ex_two_joins !! "s1") = Some (Some "r2")
  ∧ (elements ∘ socket_rooms <$> sockets ex_two_joins !! "s1") = Some ["s1"; "r2"]
  ∧ elements (dom (roomManager ex_two_joins)) = ["r1"; "r2"]
  ∧ elements (dom (sockets ex_two_joins_gone)) = []
  ∧ elements (dom (roomManager ex_two_joins_gone)) = ["r1"]
  ∧ (Room.isEmpty <$> roomManager ex_two_joins_gone !! "r1") = Some false.
Proof. split_and!; vm_compute; reflexivity. Qed.

End Handlers.

(* ===================================================================== *)
(** * The command log: further properties *)
(* ===================================================================== *)

Section CommandLogMore.

Import DrawingState.

Implicit Types (log : list Command.t) (c : Command.t) (s : DrawingState.t).

Lemma active_all_undone log : Forall is_undone log → active log = [].
Proof.
  induction 1 as [|c log Hc _ IH]; [done|]. cbn. by rewrite Hc.
Qed.


(** The active commands around the entry that [undo] or [redo] flips. *)
Lemma undo_active s :
  getActiveCommands (undo s).2 = removelast (getActiveCommands s).
Proof.
  unfold getActiveCommands.
  destruct (undo_cases s) as [[Hall ->]|(l1 & c & l2 & -> & Ha & Hall & ->)].
  - cbn [snd]. by rewrite active_all_undone.
  - cbn [snd commandLog]. rewrite !List.filter_app. cbn [List.filter].
    rewrite Ha. cbn. rewrite (active_all_undone l2) by done.
    by rewrite app_nil_r, removelast_last.
Qed.


(** X1.  [undo()] removes exactly the last command from the list of
    active commands (nothing, when there is none) and keeps the length of
    the log. *)
Theorem undo_removes_last_active_command s :
  getActiveCommands (undo s).2 = removelast (getActiveCommands s)
  ∧ length (commandLog (undo s).2) = length (commandLog s).
Proof.
  split; [apply undo_active|].
  destruct (undo_payload s) as [Hmap _].
  apply (f_equal length) in Hmap. by rewrite !length_map in Hmap.
Qed.

(** X2.  After [n] undos in a row the active commands are the former ones
    without their last [n] (all of them gone when there were fewer): the
    undos take the most recent active commands, whoever wrote them. *)
Theorem n_undos_remove_last_n_active n s :
  getActiveCommands (run (replicate n Undo) s)
  = take (length (getActiveCommands s) - n) (getActiveCommands s).
Proof.
  revert s. induction n as [|n IH]; intros s.
  - cbn. by rewrite Nat.sub_0_r, firstn_all.
  - change (run (replicate (S n) Undo) s) with (run (replicate n Undo) (undo s).2).
    rewrite IH, undo_active, removelast_firstn_len.
    rewrite length_take, take_take. f_equal. lia.
Qed.

Lemma undo_loop_last log c :
  Command.undone c = false →
  undo_loop (log ++ [c]) (S (length log))
  = (Some (mkResult "undo" (Command.id c)), log ++ [Command.set_undone true c]).
Proof.
  intros Hc. cbn [undo_loop].
  rewrite lookup_app_r, Nat.sub_diag by done. cbn [lookup list_lookup].
  rewrite Hc. cbn [negb].
  rewrite insert_app_r_alt, Nat.sub_diag by done. done.
Qed.

(** X4.  An [undo()] right after [addCommand(c)] undoes [c]: it returns
    the id of [c], and the active commands are the ones from before the
    append. *)
Theorem undo_after_append_undoes_it now c s :
  (undo (addCommand now c s).2).1 = Some (mkResult "undo" (Command.id c))
  ∧ commandLog (undo (addCommand now c s).2).2
    = commandLog s ++ [Command.set_undone true (addCommand now c s).1]
  ∧ getActiveCommands (undo (addCommand now c s).2).2 = getActiveCommands s.
Proof.
  assert (Hundo : undo (addCommand now c s).2
            = (Some (mkResult "undo" (Command.id c)),
               mk (commandLog s ++ [Command.set_undone true (addCommand now c s).1])
                  (commandIndex (addCommand now c s).2))).
  { unfold undo. cbn [addCommand snd fst commandLog commandIndex].
    rewrite length_app, Nat.add_1_r. by rewrite undo_loop_last. }
  rewrite Hundo. split_and!; try done.
  unfold getActiveCommands. cbn [snd commandLog].
  rewrite List.filter_app. cbn. by rewrite app_nil_r.
Qed.

Lemma redo_loop_app log tail k :
  k ≤ length log →
  redo_loop (log ++ tail) k
  = ((redo_loop log k).1, (redo_loop log k).2 ++ tail).
Proof.
  induction k as [|i IH]; intros Hk; [done|].
  cbn [redo_loop]. rewrite lookup_app_l by lia.
  destruct (lookup_lt_is_Some_2 log i) as [c Hc]; [lia|]. rewrite Hc.
  destruct (Command.undone c).
  - cbn. by rewrite insert_app_l by lia.
  - apply IH. lia.
Qed.

(** X5.  A new command does not clear the redo history: after
    [addCommand(c)], [redo()] returns what it would have returned before
    and flips the same entry; [c] stays the last entry. *)
Theorem append_keeps_redo_history now c s :
  (redo (addCommand now c s).2).1 = (redo s).1
  ∧ commandLog (redo (addCommand now c s).2).2
    = commandLog (redo s).2 ++ [(addCommand now c s).1].
Proof.
  unfold redo. cbn [addCommand snd fst commandLog commandIndex].
  rewrite length_app, Nat.add_1_r. cbn [redo_loop].
  rewrite lookup_app_r, Nat.sub_diag by done. cbn [lookup list_lookup].
  cbn [Command.set_timestamp Command.set_undone Command.undone].
  rewrite redo_loop_app by done.
  destruct (redo_loop (commandLog s) (length (commandLog s))) as [r log']. done.
Qed.

End CommandLogMore.

(* ===================================================================== *)
(** * The index of the log, on the server and on the client *)
(* ===================================================================== *)

Section CommandIndex.

Import DrawingState.

Implicit Types (ids : list string) (index : gmap string nat).

Lemma lookup_snoc_ne ids (k k' : string) i :
  k ≠ k' → (ids ++ [k]) !! i = Some k' ↔ ids !! i = Some k'.
Proof.
  intros Hne. destruct (decide (i < length ids)) as [Hi|Hi].
  - by rewrite lookup_app_l.
  - rewrite lookup_app_r by lia. rewrite (lookup_ge_None_2 ids i) by lia.
    split; [|done]. intros H.
    destruct (i - length ids) as [|n]; cbn in H; [congruence|done].
Qed.

Lemma index_points_to_last_nil : index_points_to_last [] ∅.
Proof.
  intros k i. rewrite lookup_empty. split; [done|].
  intros [Hi _]. by rewrite lookup_nil in Hi.
Qed.

Lemma index_points_to_last_snoc ids index k :
  index_points_to_last ids index →
  index_points_to_last (ids ++ [k]) (<[k := length ids]> index).
Proof.
  intros Hix k' i. destruct (decide (k = k')) as [<-|Hne].
  - rewrite lookup_insert_eq. split.
    + intros [= <-]. split.
      * rewrite lookup_app_r, Nat.sub_diag by done. done.
      * intros j Hj. apply lookup_lt_Some in Hj.
        rewrite length_app in Hj. cbn in Hj. lia.
    + intros [Hi Hlast]. f_equal.
      apply lookup_lt_Some in Hi. rewrite length_app in Hi. cbn in Hi.
      assert (length ids ≤ i); [|lia].
      apply Hlast. rewrite lookup_app_r, Nat.sub_diag by done. done.
  - rewrite lookup_insert_ne by done. rewrite (Hix k' i).
    rewrite lookup_snoc_ne by done.
    split; intros [Hi Hlast]; (split; [done|]); intros j Hj; apply Hlast.
    + by apply lookup_snoc_ne in Hj.
    + by apply lookup_snoc_ne.
Qed.

Lemma index_points_to_last_unique ids index index' :
  index_points_to_last ids index → index_points_to_last ids index' →
  index = index'.
Proof.
  intros H1 H2. apply map_eq. intros k.
  destruct (index !! k) as [i|] eqn:E1, (index' !! k) as [i'|] eqn:E2; try done.
  - apply H1 in E1. apply H2 in E2 as [H2a H2b]. destruct E1 as [H1a H1b].
    f_equal. apply Nat.le_antisymm; auto.
  - apply H1, H2 in E1. congruence.
  - apply H2, H1 in E2. congruence.
Qed.

Lemma payload_ids (l l' : list Command.t) :
  map Command.payload l = map Command.payload l' →
  map Command.id l = map Command.id l'.
Proof.
  intros H.
  assert (Hid : ∀ l0 : list Command.t,
            map Command.id l0
            = map (λ p, p.1.1.1.1.1.1.1.1) (map Command.payload l0)).
  { intros l0. rewrite map_map. done. }
  by rewrite !Hid, H.
Qed.

Lemma apply_index_points_to_last o s :
  index_points_to_last (map Command.id (commandLog s)) (commandIndex s) →
  index_points_to_last (map Command.id (commandLog (apply o s)))
    (commandIndex (apply o s)).
Proof.
  intros Hix. destruct o as [now c| |]; cbn [apply].
  - cbn. rewrite map_app. cbn.
    replace (length (commandLog s)) with (length (map Command.id (commandLog s)))
      by apply length_map.
    by apply index_points_to_last_snoc.
  - destruct (undo_payload s) as [Hp ->]. by rewrite (payload_ids _ _ Hp).
  - destruct (redo_payload s) as [Hp ->]. by rewrite (payload_ids _ _ Hp).
Qed.

Lemma run_index_points_to_last ops s :
  index_points_to_last (map Command.id (commandLog s)) (commandIndex s) →
  index_points_to_last (map Command.id (commandLog (run ops s)))
    (commandIndex (run ops s)).
Proof.
  revert s. induction ops as [|o ops IH]; intros s Hix; [done|].
  change (run (o :: ops) s) with (run ops (apply o s)).
  by apply IH, apply_index_points_to_last.
Qed.

(** X7.  After every sequence of appends, undos and redos on a new log,
    [commandIndex] agrees with [commandLog]: it maps an id to a position
    exactly when that position is the last one in the log that holds a
    command of that id. *)
Theorem command_index_points_to_last_entry ops k i :
  commandIndex (run ops new) !! k = Some i
  ↔ (∃ c, commandLog (run ops new) !! i = Some c ∧ Command.id c = k)
    ∧ ∀ j c, commandLog (run ops new) !! j = Some c → Command.id c = k → j ≤ i.
Proof.
  pose proof (run_index_points_to_last ops new index_points_to_last_nil k i) as H.
  rewrite H. rewrite list_lookup_fmap.
  split; intros [Hi Hlast].
  - split.
    + destruct (commandLog (run ops new) !! i) as [c|]; [|done].
      exists c. cbn in Hi. split; congruence.
    + intros j c Hj Hc. apply Hlast. rewrite list_lookup_fmap, Hj. cbn. congruence.
  - destruct Hi as (c & Hi & Hc). split.
    + rewrite Hi. cbn. congruence.
    + intros j Hj. rewrite list_lookup_fmap in Hj.
      destruct (commandLog (run ops new) !! j) as [c'|] eqn:Hc'; [|done].
      apply (Hlast j c'); [done|]. cbn in Hj. congruence.
Qed.

Lemma index_from_points_to_last (log : list Command.t) :
  ∀ ids index,
    index_points_to_last ids index →
    index_points_to_last (ids ++ map Command.id log)
      (CanvasManager.index_from (length ids) log index).
Proof.
  induction log as [|c log IH]; intros ids index Hix; cbn.
  - by rewrite app_nil_r.
  - specialize (IH (ids ++ [Command.id c]) _
                  (index_points_to_last_snoc _ _ (Command.id c) Hix)).
    rewrite length_app, Nat.add_1_r, <-app_assoc in IH. exact IH.
Qed.

(** X8.  [setCommandLog] on the full log that a joining client receives
    rebuilds the index that the server holds for that log, whatever the
    client held before. *)
Theorem setCommandLog_rebuilds_server_index ops cv :
  CanvasManager.commandIndex
    (CanvasManager.setCommandLog (getFullState (run ops new)) cv)
  = commandIndex (run ops new)
  ∧ CanvasManager.commandLog
      (CanvasManager.setCommandLog (getFullState (run ops new)) cv)
    = commandLog (run ops new).
Proof.
  split; [|done]. cbn.
  eapply index_points_to_last_unique.
  - apply (index_from_points_to_last _ [] ∅ index_points_to_last_nil).
  - cbn. apply (run_index_points_to_last ops new index_points_to_last_nil).
Qed.

End CommandIndex.

(* ===================================================================== *)
(** * The client's copy follows the server's log *)
(* ===================================================================== *)

Section Replica.

Import DrawingState.

Lemma set_flag_at b (l1 : list Command.t) c l2 cv :
  NoDup (map Command.id (l1 ++ c :: l2)) →
  index_points_to_last (map Command.id (l1 ++ c :: l2)) (CanvasManager.commandIndex cv) →
  CanvasManager.commandLog cv = l1 ++ c :: l2 →
  CanvasManager.commandLog (CanvasManager.set_flag b (Command.id c) cv)
    = l1 ++ Command.set_undone b c :: l2
  ∧ CanvasManager.commandIndex (CanvasManager.set_flag b (Command.id c) cv)
    = CanvasManager.commandIndex cv.
Proof.
  intros Hnd Hix Hlog.
  assert (Hat : map Command.id (l1 ++ c :: l2) !! length l1 = Some (Command.id c)).
  { rewrite map_app, lookup_app_r; rewrite length_map; [|done].
    by rewrite Nat.sub_diag. }
  assert (Hidx : CanvasManager.commandIndex cv !! Command.id c = Some (length l1)).
  { apply Hix. split; [done|]. intros j Hj.
    by rewrite (NoDup_lookup _ _ _ _ Hnd Hj Hat). }
  unfold CanvasManager.set_flag. rewrite Hidx, Hlog.
  rewrite lookup_app_r, Nat.sub_diag by done. cbn.
  split; [|done].
  rewrite insert_app_r_alt, Nat.sub_diag by done. done.
Qed.

Lemma follow_replica o s cv :
  NoDup (map Command.id (commandLog s)) →
  index_points_to_last (map Command.id (commandLog s)) (commandIndex s) →
  CanvasManager.commandLog cv = commandLog s →
  CanvasManager.commandIndex cv = commandIndex s →
  CanvasManager.commandLog (follow o s cv) = commandLog (apply o s)
  ∧ CanvasManager.commandIndex (follow o s cv) = commandIndex (apply o s).
Proof.
  intros Hnd Hix Hlog Hidx. destruct o as [now c| |]; cbn [follow apply].
  - cbn. by rewrite Hlog, Hidx.
  - destruct (undo_cases s) as [[_ ->]|(l1 & c & l2 & Hs & _ & _ & ->)]; [done|].
    cbn [fst snd commandLog commandIndex commandId].
    rewrite Hs in Hnd, Hix, Hlog. rewrite <-Hidx in Hix.
    unfold CanvasManager.handleUndo.
    destruct (set_flag_at true l1 c l2 cv Hnd Hix Hlog) as [-> ->]. done.
  - destruct (redo_cases s) as [[_ ->]|(l1 & c & l2 & Hs & _ & _ & ->)]; [done|].
    cbn [fst snd commandLog commandIndex commandId].
    rewrite Hs in Hnd, Hix, Hlog. rewrite <-Hidx in Hix.
    unfold CanvasManager.handleRedo.
    destruct (set_flag_at false l1 c l2 cv Hnd Hix Hlog) as [-> ->]. done.
Qed.

Lemma apply_ids o s :
  map Command.id (commandLog (apply o s))
  = map Command.id (commandLog s) ++ map Command.id (appended [o]).
Proof.
  destruct o as [now c| |]; cbn [apply appended].
  - cbn. by rewrite map_app.
  - cbn. rewrite app_nil_r. apply payload_ids, undo_payload.
  - cbn. rewrite app_nil_r. apply payload_ids, redo_payload.
Qed.

Lemma mirror_replica ops :
  ∀ s cv,
    NoDup (map Command.id (commandLog s) ++ map Command.id (appended ops)) →
    index_points_to_last (map Command.id (commandLog s)) (commandIndex s) →
    CanvasManager.commandLog cv = commandLog s →
    CanvasManager.commandIndex cv = commandIndex s →
    (mirror ops s cv).1 = run ops s
    ∧ CanvasManager.commandLog (mirror ops s cv).2 = commandLog (run ops s)
    ∧ CanvasManager.commandIndex (mirror ops s cv).2 = commandIndex (run ops s).
Proof.
  induction ops as [|o ops IH]; intros s cv Hnd Hix Hlog Hidx; [done|].
  cbn [mirror]. change (run (o :: ops) s) with (run ops (apply o s)).
  destruct (follow_replica o s cv) as [Hlog' Hidx']; try done.
  { by apply NoDup_app in Hnd as [? _]. }
  apply IH; try done.
  - rewrite apply_ids, <-app_assoc, <-map_app.
    replace (appended [o] ++ appended ops) with (appended (o :: ops)); [done|].
    by destruct o.
  - by apply apply_index_points_to_last.
Qed.

(** X9.  The client's copy converges to the server's log.  When the
    appended commands have distinct ids, a client that starts with a new
    canvas and follows every broadcast of the server (adds the command of
    a [draw_end], flips the command named by an [undo] or [redo]) holds
    the log and the index of the server after every sequence of
    operations, and paints exactly the server's active commands. *)
Theorem client_log_follows_server ops cv :
  NoDup (map Command.id (appended ops)) →
  CanvasManager.commandLog cv = [] →
  CanvasManager.commandIndex cv = ∅ →
  CanvasManager.commandLog (mirror ops new cv).2 = commandLog (run ops new)
  ∧ CanvasManager.commandIndex (mirror ops new cv).2 = commandIndex (run ops new)
  ∧ CanvasManager.painted (mirror ops new cv).2 = getActiveCommands (run ops new).
Proof.
  intros Hnd Hlog Hidx.
  destruct (mirror_replica ops new cv) as (_ & H1 & H2); try done.
  - apply index_points_to_last_nil.
  - split_and!; try done.
    unfold CanvasManager.painted, getActiveCommands. by rewrite H1.
Qed.

Lemma client_log_follows_server_witness :
  map (λ c, (Command.id c, Command.undone c))
    (CanvasManager.commandLog (mirror ex_ops new CanvasManager.new).2)
  = [("a", false); ("b", false); ("c", true)]
  ∧ CanvasManager.commandLog (mirror ex_ops new CanvasManager.new).2
    = commandLog (run ex_ops new)
  ∧ CanvasManager.commandIndex (mirror ex_ops new CanvasManager.new).2
    = commandIndex (run ex_ops new)
  ∧ CanvasManager.painted (mirror ex_ops new CanvasManager.new).2
    = getActiveCommands (run ex_ops new).
Proof.
  split; [vm_compute; reflexivity|].
  apply (client_log_follows_server ex_ops CanvasManager.new).
  - apply (bool_decide_unpack (NoDup (map Command.id (appended ex_ops)))).
    vm_compute. exact I.
  - reflexivity.
  - reflexivity.
Defined.

End Replica.

(* ===================================================================== *)
(** * Rooms and their users *)
(* ===================================================================== *)

Section Rooms.

Context {V : Type}.

Implicit Types (m : JsMap.t V) (k : string) (v : V).

Lemma JsMap_get_set_eq k v m : JsMap.get k (JsMap.set k v m) = Some v.
Proof.
  unfold JsMap.get. induction m as [|e m IH]; cbn.
  - by rewrite bool_decide_eq_true_2.
  - destruct (bool_decide (e.1 = k)) eqn:He; cbn.
    + by rewrite bool_decide_eq_true_2.
    + by rewrite He.
Qed.

Lemma JsMap_get_set_ne k k' v m :
  k ≠ k' → JsMap.get k' (JsMap.set k v m) = JsMap.get k' m.
Proof.
  intros Hne. unfold JsMap.get. induction m as [|e m IH]; cbn.
  - by rewrite bool_decide_eq_false_2.
  - destruct (bool_decide (e.1 = k)) eqn:He; cbn.
    + apply bool_decide_eq_true in He.
      rewrite !bool_decide_eq_false_2 by congruence. done.
    + destruct (bool_decide (e.1 = k')); [done|apply IH].
Qed.

Lemma JsMap_get_delete_eq k m : JsMap.get k (JsMap.delete k m) = None.
Proof.
  unfold JsMap.get, JsMap.delete. induction m as [|e m IH]; cbn; [done|].
  destruct (bool_decide (e.1 = k)) eqn:He; cbn; [done|]. by rewrite He.
Qed.

Lemma JsMap_get_delete_ne k k' m :
  k ≠ k' → JsMap.get k' (JsMap.delete k m) = JsMap.get k' m.
Proof.
  intros Hne. unfold JsMap.get, JsMap.delete. induction m as [|e m IH]; cbn; [done|].
  destruct (bool_decide (e.1 = k)) eqn:He; cbn.
  - apply bool_decide_eq_true in He.
    rewrite bool_decide_eq_false_2 by congruence. done.
  - destruct (bool_decide (e.1 = k')); [done|apply IH].
Qed.

Lemma JsMap_get_None k m : JsMap.get k m = None ↔ k ∉ map fst m.
Proof.
  unfold JsMap.get. induction m as [|e m IH]; cbn.
  - split; [|done]. intros _ H. by apply elem_of_nil in H.
  - rewrite not_elem_of_cons. destruct (bool_decide (e.1 = k)) eqn:He; cbn.
    + apply bool_decide_eq_true in He. split; [done|]. intros [? _]. congruence.
    + apply bool_decide_eq_false in He. rewrite IH. split; [|tauto].
      intros ?. split; [congruence|done].
Qed.

Lemma JsMap_delete_absent k m : JsMap.get k m = None → JsMap.delete k m = m.
Proof.
  unfold JsMap.get, JsMap.delete. induction m as [|e m IH]; cbn; [done|].
  destruct (bool_decide (e.1 = k)) eqn:He; cbn; [done|].
  intros H. by rewrite IH.
Qed.

Lemma JsMap_set_absent k v m :
  JsMap.get k m = None → JsMap.set k v m = m ++ [(k, v)].
Proof.
  unfold JsMap.get. induction m as [|e m IH]; cbn; [done|].
  destruct (bool_decide (e.1 = k)) eqn:He; cbn; [done|].
  intros H. by rewrite IH.
Qed.

Lemma JsMap_set_present k v m :
  is_Some (JsMap.get k m) →
  map fst (JsMap.set k v m) = map fst m.
Proof.
  unfold JsMap.get. induction m as [|e m IH]; cbn.
  - by intros [? ?].
  - destruct (bool_decide (e.1 = k)) eqn:He; cbn.
    + apply bool_decide_eq_true in He. by rewrite He.
    + intros H. by rewrite IH.
Qed.

Lemma JsMap_keys_set k v m :
  NoDup (map fst m) → NoDup (map fst (JsMap.set k v m)).
Proof.
  intros Hnd. destruct (JsMap.get k m) as [v0|] eqn:Hk.
  - by rewrite JsMap_set_present.
  - rewrite JsMap_set_absent, map_app by done. cbn.
    apply NoDup_app. split_and!; [done| |apply NoDup_singleton].
    intros x Hx Hx'. apply list_elem_of_singleton in Hx'. subst x.
    by apply JsMap_get_None in Hk.
Qed.

Lemma JsMap_keys_delete k m :
  NoDup (map fst m) → NoDup (map fst (JsMap.delete k m)).
Proof.
  unfold JsMap.delete. induction m as [|e m IH]; cbn; [done|].
  intros Hnd. apply NoDup_cons in Hnd as [Hne Hnd].
  destruct (bool_decide (e.1 = k)); cbn; [by apply IH|].
  apply NoDup_cons. split; [|by apply IH].
  intros Hin. apply Hne.
  apply list_elem_of_fmap in Hin as (e' & -> & Hin).
  apply list_elem_of_fmap. exists e'. split; [done|].
  apply list_elem_of_In, List.filter_In in Hin as [Hin _].
  by apply list_elem_of_In.
Qed.

End Rooms.

Section RoomUsers.

Implicit Types (r : Room.t) (socketId name uuid : string).

Lemma addUser_fields uuid socketId name r :
  Room.getUser socketId (Room.addUser uuid socketId name r).2
    = Some (Room.addUser uuid socketId name r).1
  ∧ (∀ other, other ≠ socketId →
       Room.getUser other (Room.addUser uuid socketId name r).2
       = Room.getUser other r)
  ∧ Room.drawingState (Room.addUser uuid socketId name r).2 = Room.drawingState r
  ∧ (name ≠ "" → User.name (Room.addUser uuid socketId name r).1 = name).
Proof.
  unfold Room.getUser. cbn [Room.addUser fst snd Room.users Room.drawingState].
  split_and!; try done.
  - apply JsMap_get_set_eq.
  - intros other Hne. by apply JsMap_get_set_ne.
  - intros Hne. cbn. by rewrite bool_decide_eq_false_2.
Qed.

(** X10.  [addUser] registers the user it returns under the socket id:
    [getUser] of that socket gives the new user back, the users of the
    other sockets stay, the room is not empty, and the command log is not
    touched.  The user carries the given id and socket id, never an empty
    name, and a color of the palette. *)
Theorem addUser_then_getUser uuid socketId name r :
  Room.getUser socketId (Room.addUser uuid socketId name r).2
    = Some (Room.addUser uuid socketId name r).1
  ∧ (∀ other, other ≠ socketId →
       Room.getUser other (Room.addUser uuid socketId name r).2
       = Room.getUser other r)
  ∧ Room.isEmpty (Room.addUser uuid socketId name r).2 = false
  ∧ Room.drawingState (Room.addUser uuid socketId name r).2 = Room.drawingState r
  ∧ User.id (Room.addUser uuid socketId name r).1 = uuid
  ∧ User.socketId (Room.addUser uuid socketId name r).1 = socketId
  ∧ User.name (Room.addUser uuid socketId name r).1 ≠ ""
  ∧ User.color (Room.addUser uuid socketId name r).1 ∈ USER_COLORS.
Proof.
  unfold Room.getUser. cbn [Room.addUser fst snd Room.users Room.drawingState].
  split_and!; try done.
  - apply JsMap_get_set_eq.
  - intros other Hne. by apply JsMap_get_set_ne.
  - unfold Room.isEmpty, JsMap.size. cbn [Room.users].
    pose proof (JsMap_get_set_eq socketId
                  (Room.addUser uuid socketId name r).1 (Room.users r)) as Hget.
    cbn [Room.addUser fst] in Hget.
    destruct (JsMap.set socketId _ (Room.users r)); [done|done].
  - cbn. case_bool_decide as Hn; [done|done].
  - cbn [User.color]. apply list_elem_of_In, nth_In.
    apply Nat.mod_upper_bound. done.
Qed.

Lemma removeUser_fields socketId r :
  Room.getUser socketId (Room.removeUser socketId r).2 = None
  ∧ ∀ other, other ≠ socketId →
      Room.getUser other (Room.removeUser socketId r).2 = Room.getUser other r.
Proof.
  unfold Room.getUser. cbn [Room.removeUser snd Room.users]. split.
  - apply JsMap_get_delete_eq.
  - intros other Hne. by apply JsMap_get_delete_ne.
Qed.

(** X11.  [removeUser] returns the user that [getUser] finds, or nothing;
    afterwards the socket has no user in the room, the users of the other
    sockets stay, and the log and the color counter are as before.
    Removing a socket that is not in the room leaves the users as they
    are. *)
Theorem removeUser_then_getUser socketId r :
  (Room.removeUser socketId r).1 = Room.getUser socketId r
  ∧ Room.getUser socketId (Room.removeUser socketId r).2 = None
  ∧ (∀ other, other ≠ socketId →
       Room.getUser other (Room.removeUser socketId r).2 = Room.getUser other r)
  ∧ Room.drawingState (Room.removeUser socketId r).2 = Room.drawingState r
  ∧ Room.colorIndex (Room.removeUser socketId r).2 = Room.colorIndex r
  ∧ (Room.getUser socketId r = None →
       Room.users (Room.removeUser socketId r).2 = Room.users r).
Proof.
  unfold Room.getUser. cbn [Room.removeUser fst snd Room.users Room.drawingState
                             Room.colorIndex].
  split_and!; try done.
  - apply JsMap_get_delete_eq.
  - intros other Hne. by apply JsMap_get_delete_ne.
  - apply JsMap_delete_absent.
Qed.

Lemma add_users_cons uuid socketId name joins r :
  add_users ((uuid, socketId, name) :: joins) r
  = ((Room.addUser uuid socketId name r).1
       :: (add_users joins (Room.addUser uuid socketId name r).2).1,
     (add_users joins (Room.addUser uuid socketId name r).2).2).
Proof.
  cbn [add_users]. unfold Room.addUser. cbn [fst snd].
  by destruct (add_users joins _).
Qed.

Lemma add_users_colors joins :
  ∀ r i u,
    (add_users joins r).1 !! i = Some u →
    User.color u
    = nth ((Room.colorIndex r + i) mod length USER_COLORS) USER_COLORS "".
Proof.
  induction joins as [|[[uuid socketId] name] joins IH]; intros r i u Hi; [done|].
  rewrite add_users_cons in Hi. cbn [fst] in Hi. rewrite lookup_cons in Hi.
  destruct i as [|i].
  - injection Hi as <-. cbn [Room.addUser fst User.color]. by rewrite Nat.add_0_r.
  - rewrite (IH _ i u Hi). cbn [Room.addUser snd Room.colorIndex].
    do 2 f_equal. lia.
Qed.

(** X12.  Colors go round the palette: the [i]-th user added to a room
    gets the palette color at position [colorIndex + i] modulo the length
    of the palette, where [colorIndex] is the counter of the room before;
    in a new room the eleventh user has the color of the first. *)
Theorem addUser_colors_round_robin joins r i u :
  (add_users joins r).1 !! i = Some u →
  User.color u
  = nth ((Room.colorIndex r + i) mod length USER_COLORS) USER_COLORS ""
  ∧ User.color u ∈ USER_COLORS.
Proof.
  intros Hi. rewrite (add_users_colors joins r i u Hi). split; [done|].
  apply list_elem_of_In, nth_In, Nat.mod_upper_bound. done.
Qed.

Lemma addUser_colors_round_robin_witness :
  (add_users
     (map (λ n, ("u" +:+ pretty n, "s" +:+ pretty n, "")) (seq 0 12))
     (Room.new "r1")).1 !! 10
  = Some (User.mk "u10" "User 11" "#e74c3c" "s10")
  ∧ "#e74c3c" = nth ((0 + 10) mod length USER_COLORS) USER_COLORS ""
  ∧ "#e74c3c" ∈ USER_COLORS.
Proof.
  assert (H : (add_users
                 (map (λ n, ("u" +:+ pretty n, "s" +:+ pretty n, "")) (seq 0 12))
                 (Room.new "r1")).1 !! 10
              = Some (User.mk "u10" "User 11" "#e74c3c" "s10"))
    by (vm_compute; reflexivity).
  split; [exact H|].
  apply (addUser_colors_round_robin _ (Room.new "r1") 10 _ H).
Defined.

(** X13.  The user list follows the joins: a socket that is not in the
    room is added at the end of [getUserList()]; a socket that is in the
    room already has its entry replaced, and the list keeps its length. *)
Theorem addUser_user_list uuid socketId name r :
  match Room.getUser socketId r with
  | None =>
      Room.getUserList (Room.addUser uuid socketId name r).2
      = Room.getUserList r ++ [User.to_info (Room.addUser uuid socketId name r).1]
  | Some _ =>
      length (Room.getUserList (Room.addUser uuid socketId name r).2)
      = length (Room.getUserList r)
  end.
Proof.
  unfold Room.getUser, Room.getUserList, JsMap.values.
  cbn [Room.addUser fst snd Room.users].
  destruct (JsMap.get socketId (Room.users r)) as [u0|] eqn:Hget.
  - rewrite !length_map.
    rewrite <-(length_map fst (JsMap.set _ _ _)), <-(length_map fst (Room.users r)).
    by rewrite JsMap_set_present.
  - rewrite JsMap_set_absent by done. by rewrite !map_app.
Qed.

(** X14.  A socket has at most one entry among the users of a room: the
    keys of the user map of a new room are distinct, and [addUser] and
    [removeUser] keep them distinct. *)
Theorem room_sockets_stay_distinct uuid socketId name roomId r :
  distinct_sockets (Room.new roomId)
  ∧ (distinct_sockets r →
       distinct_sockets (Room.addUser uuid socketId name r).2
       ∧ distinct_sockets (Room.removeUser socketId r).2).
Proof.
  unfold distinct_sockets. split; [apply NoDup_nil_2|].
  intros Hnd. split.
  - by apply JsMap_keys_set.
  - by apply JsMap_keys_delete.
Qed.

(** X15.  [getOrCreateRoom] is idempotent: a second call returns the room
    of the first one and changes nothing.  The room is in the registry
    afterwards, a room that existed is returned as it is, and the other
    rooms are not touched. *)
Theorem getOrCreateRoom_idempotent roomId (m : RoomManager.t) :
  RoomManager.getOrCreateRoom roomId (RoomManager.getOrCreateRoom roomId m).2
    = RoomManager.getOrCreateRoom roomId m
  ∧ RoomManager.hasRoom roomId (RoomManager.getOrCreateRoom roomId m).2 = true
  ∧ (RoomManager.getOrCreateRoom roomId m).2 !! roomId
    = Some (RoomManager.getOrCreateRoom roomId m).1
  ∧ (∀ r, m !! roomId = Some r → RoomManager.getOrCreateRoom roomId m = (r, m))
  ∧ (∀ other, other ≠ roomId →
       (RoomManager.getOrCreateRoom roomId m).2 !! other = m !! other).
Proof.
  unfold RoomManager.getOrCreateRoom, RoomManager.hasRoom.
  destruct (m !! roomId) as [r|] eqn:Hr; cbn [fst snd].
  - rewrite Hr. split_and!; try done. by intros r0 [= ->].
  - rewrite lookup_insert_eq. split_and!; try done.
    intros other Hne. by rewrite lookup_insert_ne.
Qed.

(** X16.  A deleted room leaves no history: after [deleteRoom] the
    registry does not have the room, and [getOrCreateRoom] makes a new
    one, with no users, an empty command log and the color counter at
    zero; the other rooms are not touched. *)
Theorem deleteRoom_then_getOrCreateRoom roomId (m : RoomManager.t) :
  RoomManager.hasRoom roomId (RoomManager.deleteRoom roomId m) = false
  ∧ (RoomManager.getOrCreateRoom roomId (RoomManager.deleteRoom roomId m)).1
    = Room.new roomId
  ∧ DrawingState.getFullState
      (Room.drawingState
         (RoomManager.getOrCreateRoom roomId (RoomManager.deleteRoom roomId m)).1) = []
  ∧ Room.isEmpty
      (RoomManager.getOrCreateRoom roomId (RoomManager.deleteRoom roomId m)).1 = true
  ∧ (∀ other, other ≠ roomId →
       RoomManager.deleteRoom roomId m !! other = m !! other).
Proof.
  unfold RoomManager.getOrCreateRoom, RoomManager.hasRoom, RoomManager.deleteRoom.
  rewrite lookup_delete_eq. cbn [fst]. split_and!; try done.
  intros other Hne. by rewrite lookup_delete_ne.
Qed.

End RoomUsers.

(* ===================================================================== *)
(** * The server: what a handler leaves alone *)
(* ===================================================================== *)

Section Frames.

Import Server.

Implicit Types (s : State) (c : Conn) (room strokeId socketId : string).

(** Unfolds a guard of a handler and leaves the case of a joined
    connection. *)
Ltac enter_guard c :=
  unfold with_room_and_user, with_room;
  destruct (currentRoom c) as [?room|]; [|by split_and!];
  try (destruct (currentUser c) as [?user|]; [|by split_and!]);
  destruct (truthy (Some _)); [|by split_and!].

Lemma on_draw_start_frame socketId c strokeId points color width tool s :
  roomManager (on_draw_start socketId c strokeId points color width tool s).1
    = roomManager s
  ∧ sockets (on_draw_start socketId c strokeId points color width tool s).1
    = sockets s
  ∧ ∀ room', currentRoom c ≠ Some room' →
      inFlightStrokes
        (on_draw_start socketId c strokeId points color width tool s).1 !! room'
      = inFlightStrokes s !! room'.
Proof.
  unfold on_draw_start. enter_guard c.
  destruct (getInFlightForRoom_spec room s) as (_ & Hrm & Hso & _ & H2 & Hother).
  destruct (getInFlightForRoom room s) as [fl s1]. cbn [fst snd] in *.
  rewrite H2. split_and!; try done.
  intros room' Hne. apply inFlightOf_put_ne. congruence.
Qed.

Lemma on_draw_continue_frame env socketId c strokeId points s :
  roomManager (on_draw_continue env socketId c strokeId points s).1 = roomManager s
  ∧ sockets (on_draw_continue env socketId c strokeId points s).1 = sockets s
  ∧ ∀ room', currentRoom c ≠ Some room' →
      inFlightStrokes (on_draw_continue env socketId c strokeId points s).1 !! room'
      = inFlightStrokes s !! room'.
Proof.
  unfold on_draw_continue. enter_guard c.
  destruct (getInFlightForRoom_spec room s) as (_ & Hrm & Hso & _ & H2 & Hother).
  destruct (getInFlightForRoom room s) as [fl s1]. cbn [fst snd] in *.
  assert (Hs1 : ∀ room', Some room ≠ Some room' →
            inFlightStrokes s1 !! room' = inFlightStrokes s !! room').
  { intros room' Hne. apply Hother. congruence. }
  destruct (fl !! strokeId) as [stroke|]; [|by split_and!].
  destruct points as [points|]; [|by split_and!].
  destruct (Nat.leb _ _); [|by split_and!].
  cbn [fst]. rewrite H2. split_and!; try done.
  intros room' Hne. apply inFlightOf_put_ne. congruence.
Qed.

Lemma on_cursor_move_frame socketId c x y s :
  (on_cursor_move socketId c x y s).1 = s.
Proof.
  unfold on_cursor_move, with_room_and_user.
  destruct (currentRoom c), (currentUser c); try done.
  by destruct (truthy _).
Qed.

Lemma on_draw_end_frame env socketId c strokeId s :
  sockets (on_draw_end env socketId c strokeId s).1 = sockets s
  ∧ ∀ room', currentRoom c ≠ Some room' →
      same_room_state room' s (on_draw_end env socketId c strokeId s).1.
Proof.
  unfold on_draw_end, same_room_state. enter_guard c.
  destruct (getInFlightForRoom_spec room s) as (_ & Hrm & Hso & _ & H2 & Hother).
  destruct (getInFlightForRoom room s) as [fl s1]. cbn [fst snd] in *.
  destruct (fl !! strokeId) as [stroke|].
  - rewrite H2. set (s2 := put_roomFlights room _ s).
    destruct (getOrCreateRoom_spec room s2) as (_ & Gin & Gso & G2 & Gother).
    destruct (getOrCreateRoom room s2) as [r s3]. cbn [fst snd] in *.
    unfold DrawingState.addCommand. cbn [fst snd].
    rewrite G2. split; [done|]. intros room' Hne. split.
    + cbn. rewrite lookup_insert_ne by congruence. done.
    + cbn. rewrite lookup_insert_ne by congruence. done.
  - cbn [fst]. split; [done|]. intros room' Hne. rewrite Hrm. split; [done|].
    apply Hother. congruence.
Qed.

Lemma on_undo_frame socketId c s :
  sockets (on_undo socketId c s).1 = sockets s
  ∧ inFlightStrokes (on_undo socketId c s).1 = inFlightStrokes s
  ∧ ∀ room', currentRoom c ≠ Some room' →
      roomManager (on_undo socketId c s).1 !! room' = roomManager s !! room'.
Proof.
  unfold on_undo. enter_guard c.
  destruct (getOrCreateRoom_spec room s) as (_ & Gin & Gso & G2 & Gother).
  destruct (getOrCreateRoom room s) as [r s1]. cbn [fst snd] in *.
  destruct (DrawingState.undo (Room.drawingState r)) as [[res|] ds];
    cbn [fst]; rewrite G2; (split_and!; try done);
    intros room' Hne; cbn; by rewrite lookup_insert_ne by congruence.
Qed.

Lemma on_redo_frame socketId c s :
  sockets (on_redo socketId c s).1 = sockets s
  ∧ inFlightStrokes (on_redo socketId c s).1 = inFlightStrokes s
  ∧ ∀ room', currentRoom c ≠ Some room' →
      roomManager (on_redo socketId c s).1 !! room' = roomManager s !! room'.
Proof.
  unfold on_redo. enter_guard c.
  destruct (getOrCreateRoom_spec room s) as (_ & Gin & Gso & G2 & Gother).
  destruct (getOrCreateRoom room s) as [r s1]. cbn [fst snd] in *.
  destruct (DrawingState.redo (Room.drawingState r)) as [[res|] ds];
    cbn [fst]; rewrite G2; (split_and!; try done);
    intros room' Hne; cbn; by rewrite lookup_insert_ne by congruence.
Qed.

Lemma on_join_room_frame env socketId c roomId userName s :
  inFlightStrokes (on_join_room env socketId c roomId userName s).1
    = inFlightStrokes s
  ∧ (∀ other, other ≠ socketId →
       sockets (on_join_room env socketId c roomId userName s).1 !! other
       = sockets s !! other)
  ∧ ∀ room', roomId ≠ Some room' →
      roomManager (on_join_room env socketId c roomId userName s).1 !! room'
      = roomManager s !! room'.
Proof.
  unfold on_join_room. destruct roomId as [roomId|]; [|by split_and!].
  destruct (negb (truthy (Some roomId))); [by split_and!|].
  destruct (getOrCreateRoom_spec roomId s) as (_ & Gin & Gso & G2 & Gother).
  destruct (getOrCreateRoom roomId s) as [r s1]. cbn [fst snd] in *.
  unfold Room.addUser. cbn [fst snd]. split_and!.
  - cbn. done.
  - intros other Hne. cbn [fst set_conn sockets].
    rewrite lookup_insert_ne by congruence. by rewrite <-Gso.
  - intros room' Hne. cbn [fst set_conn put_room set_roomManager roomManager].
    rewrite lookup_insert_ne by congruence.
    apply Gother. congruence.
Qed.

Lemma on_disconnect_frame socketId c s :
  sockets (on_disconnect socketId c s).1 = sockets s
  ∧ ∀ room', currentRoom c ≠ Some room' →
      same_room_state room' s (on_disconnect socketId c s).1.
Proof.
  unfold on_disconnect, same_room_state. enter_guard c.
  destruct (getOrCreateRoom_spec room s) as (_ & Gin & Gso & G2 & Gother).
  destruct (getOrCreateRoom room s) as [r s1]. cbn [fst snd] in *.
  unfold Room.removeUser. rewrite G2.
  set (r' := Room.mk _ _ _ _). set (s2 := put_room room r' s).
  destruct (getInFlightForRoom_spec room s2) as (_ & Hrm & Hso & _ & H2 & Hother).
  destruct (getInFlightForRoom room s2) as [fl s3]. cbn [fst snd] in *.
  rewrite H2. set (kept := discard_strokes_of _ fl). clearbody kept.
  destruct (Room.isEmpty r'); cbn [fst].
  - split; [done|]. intros room' Hne. cbn. unfold RoomManager.deleteRoom.
    rewrite !lookup_delete_ne, !lookup_insert_ne by congruence. done.
  - split; [done|]. intros room' Hne. cbn.
    rewrite !lookup_insert_ne by congruence. done.
Qed.

(** X17.  Rooms are isolated.  Whatever event a connected socket sends,
    every room but the one the event works on (the room named in a
    [join_room]; the socket's current room otherwise) keeps its entry of
    the registry, with its users and its command log, and its table of
    in-flight strokes. *)
Theorem events_leave_other_rooms_alone socketId c env e room' s :
  sockets s !! socketId = Some c →
  target_room c e ≠ Some room' →
  roomManager (handle socketId env e s).1 !! room' = roomManager s !! room'
  ∧ inFlightStrokes (handle socketId env e s).1 !! room' = inFlightStrokes s !! room'
  ∧ commandLogOf room' (handle socketId env e s).1 = commandLogOf room' s
  ∧ inFlightOf room' (handle socketId env e s).1 = inFlightOf room' s.
Proof.
  intros Hc Hne.
  assert (H : same_room_state room' s (handle socketId env e s).1).
  { unfold handle. rewrite Hc. unfold same_room_state.
    destruct e; cbn [target_room] in Hne.
    - destruct (on_join_room_frame env socketId c roomId userName s) as (-> & _ & Hrm).
      by rewrite Hrm.
    - destruct (on_draw_start_frame socketId c strokeId points color width tool s)
        as (-> & _ & Hfl). by rewrite Hfl.
    - destruct (on_draw_continue_frame env socketId c strokeId points s)
        as (-> & _ & Hfl). by rewrite Hfl.
    - by apply on_draw_end_frame.
    - by rewrite on_cursor_move_frame.
    - destruct (on_undo_frame socketId c s) as (_ & -> & Hrm). by rewrite Hrm.
    - destruct (on_redo_frame socketId c s) as (_ & -> & Hrm). by rewrite Hrm.
    - destruct (on_disconnect_frame socketId c s) as (_ & Hsame).
      destruct (on_disconnect socketId c s) as [s1 out]. cbn [fst] in *.
      by apply Hsame. }
  destruct H as [Hrm Hfl]. split_and!; try done.
  - unfold commandLogOf. by rewrite Hrm.
  - unfold inFlightOf. by rewrite Hfl.
Qed.

Lemma events_leave_other_rooms_alone_witness :
  sockets ex_two_joins !! "s1"
    = Some (mkConn (Some "r2") (Some (User.mk "u2" "Ann" "#e74c3c" "s1")) {["s1"; "r2"]})
  ∧ roomManager (handle "s1" (mkEnv "" 71 1000) ClientEvent.disconnect ex_two_joins).1 !! "r1"
    = roomManager ex_two_joins !! "r1"
  ∧ inFlightStrokes (handle "s1" (mkEnv "" 71 1000) ClientEvent.disconnect ex_two_joins).1 !! "r1"
    = inFlightStrokes ex_two_joins !! "r1"
  ∧ commandLogOf "r1" (handle "s1" (mkEnv "" 71 1000) ClientEvent.disconnect ex_two_joins).1
    = commandLogOf "r1" ex_two_joins
  ∧ inFlightOf "r1" (handle "s1" (mkEnv "" 71 1000) ClientEvent.disconnect ex_two_joins).1
    = inFlightOf "r1" ex_two_joins.
Proof.
  assert (Hc : sockets ex_two_joins !! "s1"
               = Some (mkConn (Some "r2") (Some (User.mk "u2" "Ann" "#e74c3c" "s1"))
                         {["s1"; "r2"]})) by (vm_compute; reflexivity).
  split; [exact Hc|].
  apply (events_leave_other_rooms_alone "s1" _ (mkEnv "" 71 1000) ClientEvent.disconnect
           "r1" ex_two_joins Hc).
  discriminate.
Defined.

End Frames.

(* ===================================================================== *)
(** * The server: strokes in progress, cursors, undo and redo *)
(* ===================================================================== *)

Section Events.

Import Server.

Implicit Types (s : State) (c : Conn) (room strokeId socketId : string).

(** X18.  A stroke in progress never reaches the log: [draw_start],
    [draw_continue] and [cursor_move], from any socket and in any state,
    leave the registry with every room's users and command log, and the
    connections, as they are. *)
Theorem preview_events_keep_registry socketId env e s :
  preview_event e = true →
  roomManager (handle socketId env e s).1 = roomManager s
  ∧ sockets (handle socketId env e s).1 = sockets s
  ∧ ∀ room, commandLogOf room (handle socketId env e s).1 = commandLogOf room s.
Proof.
  intros He.
  assert (H : roomManager (handle socketId env e s).1 = roomManager s
              ∧ sockets (handle socketId env e s).1 = sockets s).
  { unfold handle. destruct (sockets s !! socketId) as [c|]; [|done].
    destruct e; try discriminate He.
    - by destruct (on_draw_start_frame socketId c strokeId points color width tool s)
        as (? & ? & _).
    - by destruct (on_draw_continue_frame env socketId c strokeId points s) as (? & ? & _).
    - by rewrite on_cursor_move_frame. }
  destruct H as [Hrm Hso]. split_and!; try done.
  intros room. unfold commandLogOf. by rewrite Hrm.
Qed.

Lemma preview_events_keep_registry_witness :
  preview_event (ClientEvent.draw_continue "k1" (Some [ex_point])) = true
  ∧ roomManager
      (handle "s1" (mkEnv "" 40 1000)
         (ClientEvent.draw_continue "k1" (Some [ex_point])) ex_two_users).1
    = roomManager ex_two_users.
Proof.
  split; [reflexivity|].
  apply (preview_events_keep_registry "s1" (mkEnv "" 40 1000)
           (ClientEvent.draw_continue "k1" (Some [ex_point])) ex_two_users).
  reflexivity.
Defined.

(** X19.  A cursor position is relayed and not stored: on a joined
    connection [cursor_move] leaves the whole state as it is and sends the
    position, with the id, name and color of the connection's user, to the
    other sockets of the room only. *)
Theorem cursor_move_is_relayed_only socketId room user env x y s :
  joined socketId room user s →
  handle socketId env (ClientEvent.cursor_move x y) s
  = (s, [(ToOthers socketId room,
          ServerEvent.cursor_move (User.id user) (User.name user)
            (User.color user) x y)]).
Proof.
  intros (c & Hc & Hr & Hne & Hu). unfold handle. rewrite Hc.
  unfold on_cursor_move. by rewrite (with_room_and_user_joined c room user).
Qed.

Lemma cursor_move_is_relayed_only_witness :
  joined "s1" "r1" (User.mk "u1" "Ann" "#e74c3c" "s1") ex_joined
  ∧ handle "s1" (mkEnv "" 11 1000) (ClientEvent.cursor_move 3%float 4%float) ex_joined
    = (ex_joined,
       [(ToOthers "s1" "r1",
         ServerEvent.cursor_move "u1" "Ann" "#e74c3c" 3%float 4%float)]).
Proof.
  assert (Hj : joined "s1" "r1" (User.mk "u1" "Ann" "#e74c3c" "s1") ex_joined).
  { eexists. split_and!; [vm_compute; reflexivity|reflexivity|discriminate|reflexivity]. }
  split; [exact Hj|].
  apply (cursor_move_is_relayed_only "s1" "r1" _ (mkEnv "" 11 1000) 3%float 4%float
           ex_joined Hj).
Defined.

Lemma inFlightOf_getInFlightForRoom room room' s :
  inFlightOf room' (getInFlightForRoom room s).2 = inFlightOf room' s.
Proof.
  destruct (getInFlightForRoom_spec room s) as (_ & _ & _ & Hsame & _ & Hother).
  destruct (decide (room = room')) as [<-|Hne]; [done|].
  unfold inFlightOf. by rewrite Hother.
Qed.

(** X20.  Stray stroke events are dropped.  On a joined connection a
    [draw_continue] or [draw_end] for a stroke id that is not in flight in
    the room, and a [draw_continue] without points, emit nothing, leave
    the registry and the connections as they are, and leave the in-flight
    strokes of every room as they are. *)
Theorem stray_stroke_events_are_dropped socketId room user env e strokeId s :
  joined socketId room user s →
  (inFlightOf room s !! strokeId = None
   ∧ (e = ClientEvent.draw_end strokeId
      ∨ ∃ points, e = ClientEvent.draw_continue strokeId points))
  ∨ e = ClientEvent.draw_continue strokeId None →
  (handle socketId env e s).2 = []
  ∧ roomManager (handle socketId env e s).1 = roomManager s
  ∧ sockets (handle socketId env e s).1 = sockets s
  ∧ ∀ room', inFlightOf room' (handle socketId env e s).1 = inFlightOf room' s.
Proof.
  intros (c & Hc & Hr & Hne & Hu) He. unfold handle. rewrite Hc.
  pose proof (inFlightOf_getInFlightForRoom room) as Hsame.
  destruct (getInFlightForRoom_spec room s) as (H1 & Hrm & Hso & _).
  destruct He as [[Hnone [->|[points ->]]]| ->].
  - unfold on_draw_end. rewrite (with_room_and_user_joined c room user) by done.
    destruct (getInFlightForRoom room s) as [fl s1] eqn:Hg. cbn [fst snd] in *.
    subst fl. rewrite Hnone. split_and!; try done.
    intros room'. specialize (Hsame room' s). by rewrite Hg in Hsame.
  - unfold on_draw_continue. rewrite (with_room_and_user_joined c room user) by done.
    destruct (getInFlightForRoom room s) as [fl s1] eqn:Hg. cbn [fst snd] in *.
    subst fl. rewrite Hnone. split_and!; try done.
    intros room'. specialize (Hsame room' s). by rewrite Hg in Hsame.
  - unfold on_draw_continue. rewrite (with_room_and_user_joined c room user) by done.
    destruct (getInFlightForRoom room s) as [fl s1] eqn:Hg. cbn [fst snd] in *.
    assert (Hall : ∀ room', inFlightOf room' s1 = inFlightOf room' s).
    { intros room'. specialize (Hsame room' s). by rewrite Hg in Hsame. }
    destruct (fl !! strokeId); by split_and!.
Qed.

Lemma stray_stroke_events_are_dropped_witness :
  joined "s1" "r1" (User.mk "u1" "Ann" "#e74c3c" "s1") ex_committed
  ∧ inFlightOf "r1" ex_committed !! "k1" = None
  ∧ (handle "s1" (mkEnv "" 41 1000) (ClientEvent.draw_end "k1") ex_committed).2 = []
  ∧ roomManager (handle "s1" (mkEnv "" 41 1000) (ClientEvent.draw_end "k1") ex_committed).1
    = roomManager ex_committed.
Proof.
  assert (Hj : joined "s1" "r1" (User.mk "u1" "Ann" "#e74c3c" "s1") ex_committed).
  { eexists. split_and!; [vm_compute; reflexivity|reflexivity|discriminate|reflexivity]. }
  assert (Hk : inFlightOf "r1" ex_committed !! "k1" = None) by (vm_compute; reflexivity).
  split; [exact Hj|]. split; [exact Hk|].
  destruct (stray_stroke_events_are_dropped "s1" "r1" _ (mkEnv "" 41 1000)
              (ClientEvent.draw_end "k1") "k1" ex_committed Hj) as (H1 & H2 & _).
  - left. split; [exact Hk|]. left. reflexivity.
  - split; [exact H1|exact H2].
Defined.

Lemma undo_result_last_active (ds : DrawingState.t) :
  (DrawingState.undo ds).1
  = (λ cmd, DrawingState.mkResult "undo" (Command.id cmd))
      <$> last (DrawingState.getActiveCommands ds).
Proof.
  unfold DrawingState.getActiveCommands.
  destruct (undo_cases ds) as [[Hall ->]|(l1 & cmd & l2 & -> & Ha & Hall & ->)].
  - by rewrite active_all_undone.
  - rewrite List.filter_app. cbn [List.filter]. rewrite Ha. cbn [negb].
    rewrite (active_all_undone l2) by done. by rewrite last_snoc.
Qed.

Lemma on_undo_joined socketId c room s :
  currentRoom c = Some room → room ≠ "" →
  on_undo socketId c s
  = (put_room room
       (Room.mk (Room.id (roomOf room s)) (Room.users (roomOf room s))
          (DrawingState.undo (Room.drawingState (roomOf room s))).2
          (Room.colorIndex (roomOf room s))) s,
     match (DrawingState.undo (Room.drawingState (roomOf room s))).1 with
     | Some result => [(ToRoom room, ServerEvent.undo result)]
     | None => [(ToSocket socketId, ServerEvent.error "Nothing to undo")]
     end).
Proof.
  intros Hr Hne. unfold on_undo. rewrite (with_room_joined c room) by done.
  destruct (getOrCreateRoom_spec room s) as (G1 & _ & _ & G2 & _).
  destruct (getOrCreateRoom room s) as [r s1]. cbn [fst snd] in *. subst r.
  destruct (DrawingState.undo _) as [[result|] ds]; cbn [fst snd]; by rewrite G2.
Qed.

Lemma on_redo_joined socketId c room s :
  currentRoom c = Some room → room ≠ "" →
  on_redo socketId c s
  = (put_room room
       (Room.mk (Room.id (roomOf room s)) (Room.users (roomOf room s))
          (DrawingState.redo (Room.drawingState (roomOf room s))).2
          (Room.colorIndex (roomOf room s))) s,
     match (DrawingState.redo (Room.drawingState (roomOf room s))).1 with
     | Some result => [(ToRoom room, ServerEvent.redo result)]
     | None => [(ToSocket socketId, ServerEvent.error "Nothing to redo")]
     end).
Proof.
  intros Hr Hne. unfold on_redo. rewrite (with_room_joined c room) by done.
  destruct (getOrCreateRoom_spec room s) as (G1 & _ & _ & G2 & _).
  destruct (getOrCreateRoom room s) as [r s1]. cbn [fst snd] in *. subst r.
  destruct (DrawingState.redo _) as [[result|] ds]; cbn [fst snd]; by rewrite G2.
Qed.

(** X21.  Undo is global and is announced to the whole room.  On a joined
    connection the [undo] event takes the last active command of the room,
    whoever its author is, out of the active commands and sends its id to
    every socket of the room, the requester included; when the room has no
    active command, the requester alone gets the error [Nothing to undo]
    and the log stays as it is.  Users and in-flight strokes are not
    touched. *)
Theorem undo_event_broadcasts_last_active socketId room user env s :
  joined socketId room user s →
  let ds := Room.drawingState (roomOf room s) in
  let r := handle socketId env ClientEvent.undo s in
  r.2 = match last (DrawingState.getActiveCommands ds) with
        | Some cmd =>
            [(ToRoom room,
              ServerEvent.undo (DrawingState.mkResult "undo" (Command.id cmd)))]
        | None => [(ToSocket socketId, ServerEvent.error "Nothing to undo")]
        end
  ∧ DrawingState.getActiveCommands (Room.drawingState (roomOf room r.1))
    = removelast (DrawingState.getActiveCommands ds)
  ∧ (DrawingState.getActiveCommands ds = [] →
       commandLogOf room r.1 = Some (DrawingState.commandLog ds))
  ∧ Room.users (roomOf room r.1) = Room.users (roomOf room s)
  ∧ inFlightStrokes r.1 = inFlightStrokes s.
Proof.
  intros (c & Hc & Hr & Hne & Hu) ds r. subst r. unfold handle. rewrite Hc.
  rewrite (on_undo_joined socketId c room s Hr Hne). fold ds. cbn [fst snd].
  rewrite undo_result_last_active.
  assert (Hroom : roomOf room
            (put_room room
               (Room.mk (Room.id (roomOf room s)) (Room.users (roomOf room s))
                  (DrawingState.undo ds).2 (Room.colorIndex (roomOf room s))) s)
            = Room.mk (Room.id (roomOf room s)) (Room.users (roomOf room s))
                (DrawingState.undo ds).2 (Room.colorIndex (roomOf room s))).
  { unfold roomOf at 1. cbn. by rewrite lookup_insert_eq. }
  rewrite Hroom. cbn [Room.drawingState Room.users]. split_and!; try done.
  - by destruct (last (DrawingState.getActiveCommands ds)).
  - apply undo_active.
  - intros Hnil. unfold commandLogOf. cbn. rewrite lookup_insert_eq. cbn.
    destruct (undo_cases ds) as [[_ ->]|(l1 & cmd & l2 & Hlog & Ha & Hall & _)]; [done|].
    exfalso. unfold DrawingState.getActiveCommands in Hnil.
    rewrite Hlog, List.filter_app in Hnil. cbn [List.filter] in Hnil.
    rewrite Ha in Hnil. cbn in Hnil. by destruct (List.filter _ l1).
Qed.

Lemma undo_event_broadcasts_last_active_witness :
  joined "s1" "r1" (User.mk "u1" "Ann" "#e74c3c" "s1") ex_two_users
  ∧ (handle "s1" (mkEnv "" 42 1000) ClientEvent.undo ex_two_users).2
    = [(ToRoom "r1", ServerEvent.undo (DrawingState.mkResult "undo" "k0"))].
Proof.
  assert (Hj : joined "s1" "r1" (User.mk "u1" "Ann" "#e74c3c" "s1") ex_two_users).
  { eexists. split_and!; [vm_compute; reflexivity|reflexivity|discriminate|reflexivity]. }
  split; [exact Hj|].
  destruct (undo_event_broadcasts_last_active "s1" "r1" _ (mkEnv "" 42 1000)
              ex_two_users Hj) as (H1 & _).
  rewrite H1. vm_compute. reflexivity.
Defined.

(** X22.  Redo is announced in the same way: on a joined connection the
    [redo] event applies [redo()] to the log of the room and sends the id
    of the command put back to every socket of the room; when no command
    is undone, the requester alone gets the error [Nothing to redo] and
    the room stays as it is.  Users and in-flight strokes are not
    touched. *)
Theorem redo_event_broadcasts socketId room user env s :
  joined socketId room user s →
  let ds := Room.drawingState (roomOf room s) in
  let r := handle socketId env ClientEvent.redo s in
  r.2 = match (DrawingState.redo ds).1 with
        | Some result => [(ToRoom room, ServerEvent.redo result)]
        | None => [(ToSocket socketId, ServerEvent.error "Nothing to redo")]
        end
  ∧ Room.drawingState (roomOf room r.1) = (DrawingState.redo ds).2
  ∧ ((DrawingState.redo ds).1 = None →
       commandLogOf room r.1 = Some (DrawingState.commandLog ds))
  ∧ Room.users (roomOf room r.1) = Room.users (roomOf room s)
  ∧ inFlightStrokes r.1 = inFlightStrokes s.
Proof.
  intros (c & Hc & Hr & Hne & Hu) ds r. subst r. unfold handle. rewrite Hc.
  rewrite (on_redo_joined socketId c room s Hr Hne). fold ds. cbn [fst snd].
  assert (Hroom : roomOf room
            (put_room room
               (Room.mk (Room.id (roomOf room s)) (Room.users (roomOf room s))
                  (DrawingState.redo ds).2 (Room.colorIndex (roomOf room s))) s)
            = Room.mk (Room.id (roomOf room s)) (Room.users (roomOf room s))
                (DrawingState.redo ds).2 (Room.colorIndex (roomOf room s))).
  { unfold roomOf at 1. cbn. by rewrite lookup_insert_eq. }
  rewrite Hroom. cbn [Room.drawingState Room.users]. split_and!; try done.
  intros Hnone. unfold commandLogOf. cbn. rewrite lookup_insert_eq. cbn.
  destruct (redo_cases ds) as [[_ ->]|(l1 & cmd & l2 & _ & _ & _ & Hredo)]; [done|].
  rewrite Hredo in Hnone. discriminate Hnone.
Qed.

Lemma redo_event_broadcasts_witness :
  joined "s1" "r1" (User.mk "u1" "Ann" "#e74c3c" "s1") ex_two_users
  ∧ (handle "s1" (mkEnv "" 42 1000) ClientEvent.redo ex_two_users).2
    = [(ToSocket "s1", ServerEvent.error "Nothing to redo")].
Proof.
  assert (Hj : joined "s1" "r1" (User.mk "u1" "Ann" "#e74c3c" "s1") ex_two_users).
  { eexists. split_and!; [vm_compute; reflexivity|reflexivity|discriminate|reflexivity]. }
  split; [exact Hj|].
  destruct (redo_event_broadcasts "s1" "r1" _ (mkEnv "" 42 1000) ex_two_users Hj)
    as (H1 & _).
  rewrite H1. vm_compute. reflexivity.
Defined.

End Events.

(* ===================================================================== *)
(** * The server: joining and leaving *)
(* ===================================================================== *)

Section Membership.

Import Server.

Implicit Types (s : State) (c : Conn) (room strokeId socketId : string).








Lemma JsMap_get_nonempty {V} (k : string) (v : V) (m : JsMap.t V) :
  JsMap.get k m = Some v → Nat.eqb (JsMap.size m) 0 = false.
Proof. by destruct m. Qed.

(** X23.  A [join_room] without a room id, or with the empty one, is
    refused: the state stays as it is and the requester alone gets the
    error [Invalid room ID]. *)
Theorem join_room_refuses_invalid_id socketId c env roomId userName s :
  sockets s !! socketId = Some c →
  roomId = None ∨ roomId = Some "" →
  handle socketId env (ClientEvent.join_room roomId userName) s
  = (s, [(ToSocket socketId, ServerEvent.error "Invalid room ID")]).
Proof.
  intros Hc Hid. unfold handle. rewrite Hc. by destruct Hid as [-> | ->].
Qed.

Lemma join_room_refuses_invalid_id_witness :
  sockets ex_connected !! "s1" = Some (mkConn None None {["s1"]})
  ∧ handle "s1" (mkEnv "u1" 1 1000) (ClientEvent.join_room (Some "") (Some "Ann")) ex_connected
    = (ex_connected, [(ToSocket "s1", ServerEvent.error "Invalid room ID")]).
Proof.
  assert (Hc : sockets ex_connected !! "s1" = Some (mkConn None None {["s1"]}))
    by (vm_compute; reflexivity).
  split; [exact Hc|].
  apply (join_room_refuses_invalid_id "s1" _ (mkEnv "u1" 1 1000) (Some "") (Some "Ann")
           ex_connected Hc).
  right. reflexivity.
Defined.

Lemma on_join_room_valid env socketId c roomId userName s :
  roomId ≠ "" →
  let safeName :=
    if bool_decide (JsString.slice_0 30 (default "" userName) = "")
    then "Anonymous" else JsString.slice_0 30 (default "" userName) in
  let room0 := roomOf roomId s in
  let user := (Room.addUser (uuid env) socketId safeName room0).1 in
  let room1 := (Room.addUser (uuid env) socketId safeName room0).2 in
  on_join_room env socketId c (Some roomId) userName s
  = (set_conn socketId
       (mkConn (Some roomId) (Some user)
          (match currentRoom c with
           | Some prev => if truthy (Some prev) then socket_rooms c ∖ {[prev]}
                          else socket_rooms c
           | None => socket_rooms c
           end ∪ {[roomId]}))
       (put_room roomId room1 s),
     [ (ToSocket socketId,
        ServerEvent.room_state (Room.getUserList room1)
          (DrawingState.getFullState (Room.drawingState room0)) user);
       (ToOthers socketId roomId, ServerEvent.user_joined (User.to_info user)) ]).
Proof.
  intros Hne. cbn zeta. unfold on_join_room, truthy.
  rewrite bool_decide_eq_false_2 by done. cbn [negb].
  destruct (getOrCreateRoom_spec roomId s) as (G1 & _ & _ & G2 & _).
  destruct (getOrCreateRoom roomId s) as [r s1]. cbn [fst snd] in *. subst r.
  unfold Room.addUser. cbn [fst snd]. by rewrite G2.
Qed.



Lemma on_disconnect_joined socketId c room r s :
  currentRoom c = Some room → room ≠ "" →
  roomManager s !! room = Some r →
  let r' := (Room.removeUser socketId r).2 in
  let kept := discard_strokes_of (Room.getUser socketId r) (inFlightOf room s) in
  on_disconnect socketId c s
  = (if Room.isEmpty r'
     then mk (delete room (roomManager s)) (delete room (inFlightStrokes s)) (sockets s)
     else mk (<[room := r']> (roomManager s)) (<[room := kept]> (inFlightStrokes s))
            (sockets s),
     match Room.getUser socketId r with
     | Some removedUser => [(ToOthers socketId room, ServerEvent.user_left (User.id removedUser))]
     | None => []
     end).
Proof.
  intros Hr Hne Hrm. cbn zeta.
  unfold on_disconnect. rewrite (with_room_joined c room) by done.
  unfold getOrCreateRoom, RoomManager.getOrCreateRoom. rewrite Hrm.
  unfold Room.removeUser, Room.getUser. cbn [fst snd].
  set (r' := Room.mk _ _ _ _).
  set (s1 := put_room room r' _).
  destruct (getInFlightForRoom_spec room s1) as (H1 & _ & _ & _ & H2 & _).
  destruct (getInFlightForRoom room s1) as [fl s2]. cbn [fst snd] in H1, H2.
  rewrite H2. subst fl. change (inFlightOf room s1) with (inFlightOf room s).
  f_equal. destruct (Room.isEmpty r').
  - cbn. unfold RoomManager.deleteRoom. by rewrite !delete_insert_eq.
  - done.
Qed.

(** X25.  A disconnect is announced and closes the socket.  When a joined
    socket disconnects, its user leaves the user map of its room, the
    other sockets of the room get [user_left] with the id of that user,
    and the socket is gone from the connections: whatever event arrives
    for it afterwards changes nothing and emits nothing. *)
Theorem disconnect_announces_and_closes socketId c room r u env s :
  sockets s !! socketId = Some c →
  currentRoom c = Some room → room ≠ "" →
  roomManager s !! room = Some r →
  Room.getUser socketId r = Some u →
  let d := handle socketId env ClientEvent.disconnect s in
  d.2 = [(ToOthers socketId room, ServerEvent.user_left (User.id u))]
  ∧ sockets d.1 = delete socketId (sockets s)
  ∧ (∀ r1, roomManager d.1 !! room = Some r1 →
       Room.getUser socketId r1 = None
       ∧ ∀ other, other ≠ socketId → Room.getUser other r1 = Room.getUser other r)
  ∧ ∀ env' e, handle socketId env' e d.1 = (d.1, []).
Proof.
  intros Hc Hr Hne Hrm Hu d.
  set (s1 := if Room.isEmpty (Room.removeUser socketId r).2
             then mk (delete room (roomManager s)) (delete room (inFlightStrokes s))
                    (sockets s)
             else mk (<[room := (Room.removeUser socketId r).2]> (roomManager s))
                    (<[room := discard_strokes_of (Room.getUser socketId r)
                                 (inFlightOf room s)]> (inFlightStrokes s))
                    (sockets s)).
  assert (Hd : d = (mk (roomManager s1) (inFlightStrokes s1)
                      (delete socketId (sockets s1)),
                    [(ToOthers socketId room, ServerEvent.user_left (User.id u))])).
  { subst d. unfold handle. rewrite Hc.
    rewrite (on_disconnect_joined socketId c room r s Hr Hne Hrm).
    unfold s1. by rewrite Hu. }
  rewrite Hd. cbn [fst snd]. clear Hd d.
  destruct (removeUser_fields socketId r) as (Hgone & Hothers).
  assert (Hso : sockets s1 = sockets s).
  { unfold s1. by destruct (Room.isEmpty _). }
  split_and!.
  - done.
  - by rewrite Hso.
  - intros r1. unfold s1. destruct (Room.isEmpty _); cbn.
    + by rewrite lookup_delete_eq.
    + rewrite lookup_insert_eq. by intros [= <-].
  - intros env' e. unfold handle. cbn [sockets]. by rewrite lookup_delete_eq.
Qed.

Lemma disconnect_announces_and_closes_witness :
  Room.getUser "s1" (roomOf "r1" ex_two_users)
    = Some (User.mk "u1" "Ann" "#e74c3c" "s1")
  ∧ (handle "s1" (mkEnv "" 50 1000) ClientEvent.disconnect ex_two_users).2
    = [(ToOthers "s1" "r1", ServerEvent.user_left "u1")]
  ∧ sockets (handle "s1" (mkEnv "" 50 1000) ClientEvent.disconnect ex_two_users).1
    = delete "s1" (sockets ex_two_users).
Proof.
  assert (Hc : sockets ex_two_users !! "s1"
               = Some (mkConn (Some "r1") (Some (User.mk "u1" "Ann" "#e74c3c" "s1"))
                         {["s1"; "r1"]})) by (vm_compute; reflexivity).
  assert (Hrm : roomManager ex_two_users !! "r1" = Some (roomOf "r1" ex_two_users))
    by (vm_compute; reflexivity).
  assert (Hu : Room.getUser "s1" (roomOf "r1" ex_two_users)
               = Some (User.mk "u1" "Ann" "#e74c3c" "s1")) by (vm_compute; reflexivity).
  assert (Hne : "r1" ≠ "") by discriminate.
  split; [exact Hu|].
  destruct (disconnect_announces_and_closes "s1" _ "r1" _ _ (mkEnv "" 50 1000)
              ex_two_users Hc eq_refl Hne Hrm Hu) as (H1 & H2 & _).
  split; [exact H1|exact H2].
Defined.

End Membership.

(* ===================================================================== *)
(** * The server: invariants of the registry *)
(* ===================================================================== *)

Section Invariants.

Import Server.

Implicit Types (s : State) (c : Conn) (room strokeId socketId : string).

Lemma run_cons_fst i inputs s : (run (i :: inputs) s).1 = (run inputs (step i s).1).1.
Proof.
  cbn [run]. destruct (step i s) as [s1 o1]. cbn [fst].
  by destruct (run inputs s1).
Qed.

Lemma getUser_nonempty socketId (r : Room.t) u :
  Room.getUser socketId r = Some u → Room.isEmpty r = false.
Proof. unfold Room.getUser, Room.isEmpty. apply JsMap_get_nonempty. Qed.

Lemma inv_same s s' :
  sockets s' = sockets s → roomManager s' = roomManager s →
  conns_registered s ∧ no_empty_room s →
  conns_registered s' ∧ no_empty_room s'.
Proof.
  unfold conns_registered, no_empty_room. intros -> ->. done.
Qed.

(** Replacing the drawing state of a room keeps the invariants. *)
Lemma inv_log_update s s' room r ds :
  sockets s' = sockets s →
  roomManager s !! room = Some r →
  roomManager s'
    = <[room := Room.mk (Room.id r) (Room.users r) ds (Room.colorIndex r)]> (roomManager s) →
  conns_registered s ∧ no_empty_room s →
  conns_registered s' ∧ no_empty_room s'.
Proof.
  intros Hso Hr Hrm [Hreg Hne]. split.
  - intros socketId c room' Hc Hroom'. rewrite Hso in Hc.
    destruct (Hreg socketId c room' Hc Hroom') as (Hn & r0 & u & Hr0 & Hu & Hcu).
    split; [done|]. rewrite Hrm.
    destruct (decide (room = room')) as [<-|Hd].
    + rewrite lookup_insert_eq. eexists _, u. split; [done|].
      rewrite Hr in Hr0. injection Hr0 as <-. done.
    + exists r0, u. by rewrite lookup_insert_ne.
  - intros room' r0. rewrite Hrm.
    destruct (decide (room = room')) as [<-|Hd].
    + rewrite lookup_insert_eq. intros [= <-]. apply (Hne room r Hr).
    + rewrite lookup_insert_ne by done. apply Hne.
Qed.

(** With the current room of the connection in the registry, [draw_end],
    [undo] and [redo] change at most the drawing state of that room. *)
Lemma on_draw_end_registry env socketId c strokeId s :
  (∀ room, currentRoom c = Some room → is_Some (roomManager s !! room)) →
  roomManager (on_draw_end env socketId c strokeId s).1 = roomManager s
  ∨ ∃ room r ds,
      roomManager s !! room = Some r
      ∧ roomManager (on_draw_end env socketId c strokeId s).1
        = <[room := Room.mk (Room.id r) (Room.users r) ds (Room.colorIndex r)]>
            (roomManager s).
Proof.
  intros Hex. unfold on_draw_end, with_room_and_user.
  destruct (currentRoom c) as [room|]; [|by left].
  destruct (currentUser c) as [user|]; [|by left].
  destruct (truthy (Some room)); [|by left].
  destruct (Hex room eq_refl) as [r Hr].
  destruct (getInFlightForRoom_spec room s) as (_ & Hrm & _ & _ & H2 & _).
  destruct (getInFlightForRoom room s) as [fl s1]. cbn [fst snd] in *.
  destruct (fl !! strokeId) as [stroke|]; [|by left].
  rewrite H2. unfold getOrCreateRoom, RoomManager.getOrCreateRoom.
  cbn [put_roomFlights set_inFlightStrokes roomManager]. rewrite Hr.
  right. eexists room, r, _. split; [done|]. cbn. done.
Qed.

Lemma on_undo_registry socketId c s :
  (∀ room, currentRoom c = Some room → is_Some (roomManager s !! room)) →
  roomManager (on_undo socketId c s).1 = roomManager s
  ∨ ∃ room r ds,
      roomManager s !! room = Some r
      ∧ roomManager (on_undo socketId c s).1
        = <[room := Room.mk (Room.id r) (Room.users r) ds (Room.colorIndex r)]>
            (roomManager s).
Proof.
  intros Hex. unfold on_undo, with_room.
  destruct (currentRoom c) as [room|]; [|by left].
  destruct (truthy (Some room)); [|by left].
  destruct (Hex room eq_refl) as [r Hr].
  unfold getOrCreateRoom, RoomManager.getOrCreateRoom. rewrite Hr.
  right. exists room, r, (DrawingState.undo (Room.drawingState r)).2.
  split; [done|].
  by destruct (DrawingState.undo (Room.drawingState r)) as [[res|] ds].
Qed.

Lemma on_redo_registry socketId c s :
  (∀ room, currentRoom c = Some room → is_Some (roomManager s !! room)) →
  roomManager (on_redo socketId c s).1 = roomManager s
  ∨ ∃ room r ds,
      roomManager s !! room = Some r
      ∧ roomManager (on_redo socketId c s).1
        = <[room := Room.mk (Room.id r) (Room.users r) ds (Room.colorIndex r)]>
            (roomManager s).
Proof.
  intros Hex. unfold on_redo, with_room.
  destruct (currentRoom c) as [room|]; [|by left].
  destruct (truthy (Some room)); [|by left].
  destruct (Hex room eq_refl) as [r Hr].
  unfold getOrCreateRoom, RoomManager.getOrCreateRoom. rewrite Hr.
  right. exists room, r, (DrawingState.redo (Room.drawingState r)).2.
  split; [done|].
  by destruct (DrawingState.redo (Room.drawingState r)) as [[res|] ds].
Qed.

Lemma inv_registry_update s s' :
  sockets s' = sockets s →
  (roomManager s' = roomManager s
   ∨ ∃ room r ds,
       roomManager s !! room = Some r
       ∧ roomManager s'
         = <[room := Room.mk (Room.id r) (Room.users r) ds (Room.colorIndex r)]>
             (roomManager s)) →
  conns_registered s ∧ no_empty_room s →
  conns_registered s' ∧ no_empty_room s'.
Proof.
  intros Hso [Hrm|(room & r & ds & Hr & Hrm)] Hinv.
  - by apply (inv_same s).
  - by apply (inv_log_update s s' room r ds).
Qed.

Lemma inv_join_room env socketId c roomId userName s :
  sockets s !! socketId = Some c →
  conns_registered s ∧ no_empty_room s →
  conns_registered (on_join_room env socketId c roomId userName s).1
  ∧ no_empty_room (on_join_room env socketId c roomId userName s).1.
Proof.
  intros Hc [Hreg Hne].
  destruct roomId as [roomId|]; [|done].
  destruct (decide (roomId = "")) as [->|Hid]; [done|].
  rewrite (on_join_room_valid env socketId c roomId userName s Hid).
  set (safeName := if bool_decide _ then _ else _).
  destruct (addUser_fields (uuid env) socketId safeName (roomOf roomId s))
    as (Hget & Hothers & _ & _).
  set (user := (Room.addUser (uuid env) socketId safeName (roomOf roomId s)).1) in *.
  set (room1 := (Room.addUser (uuid env) socketId safeName (roomOf roomId s)).2) in *.
  cbn [fst]. split.
  - intros socketId' c' room Hc' Hroom. cbn in Hc'.
    destruct (decide (socketId = socketId')) as [<-|Hd].
    + rewrite lookup_insert_eq in Hc'. injection Hc' as <-.
      cbn in Hroom. injection Hroom as <-. split; [done|].
      exists room1, user. cbn. by rewrite lookup_insert_eq.
    + rewrite lookup_insert_ne in Hc' by done.
      destruct (Hreg socketId' c' room Hc' Hroom) as (Hn & r0 & u & Hr0 & Hu & Hcu).
      split; [done|]. cbn.
      destruct (decide (roomId = room)) as [<-|Hd'].
      * rewrite lookup_insert_eq. exists room1, u. split; [done|]. split; [|done].
        rewrite Hothers by done. unfold roomOf. by rewrite Hr0.
      * rewrite lookup_insert_ne by done. by exists r0, u.
  - intros room r0. cbn.
    destruct (decide (roomId = room)) as [<-|Hd'].
    + rewrite lookup_insert_eq. intros [= <-]. by apply (getUser_nonempty socketId _ user).
    + rewrite lookup_insert_ne by done. apply Hne.
Qed.

Lemma inv_disconnect socketId c s :
  sockets s !! socketId = Some c →
  conns_registered s ∧ no_empty_room s →
  let s1 := (on_disconnect socketId c s).1 in
  let s' := mk (roomManager s1) (inFlightStrokes s1) (delete socketId (sockets s1)) in
  conns_registered s' ∧ no_empty_room s'.
Proof.
  intros Hc [Hreg Hne]. cbn zeta.
  destruct (currentRoom c) as [room|] eqn:Hroom.
  - destruct (Hreg socketId c room Hc Hroom) as (Hn & r & u & Hr & Hu & _).
    rewrite (on_disconnect_joined socketId c room r s Hroom Hn Hr). cbn [fst].
    destruct (removeUser_fields socketId r) as (_ & Hothers).
    set (r' := (Room.removeUser socketId r).2) in *.
    split.
    + intros socketId' c' room' Hc' Hroom'.
      assert (Hd : socketId' ≠ socketId ∧ sockets s !! socketId' = Some c').
      { destruct (Room.isEmpty r'); cbn in Hc';
          by apply lookup_delete_Some in Hc' as [? ?]. }
      destruct Hd as [Hd Hc0].
      destruct (Hreg socketId' c' room' Hc0 Hroom') as (Hn' & r0 & u0 & Hr0 & Hu0 & Hcu).
      split; [done|].
      destruct (decide (room = room')) as [<-|Hdr].
      * rewrite Hr in Hr0. injection Hr0 as <-.
        assert (Hu' : Room.getUser socketId' r' = Some u0) by (by rewrite Hothers).
        rewrite (getUser_nonempty socketId' r' u0 Hu'). cbn.
        rewrite lookup_insert_eq. by exists r', u0.
      * exists r0, u0. split; [|done].
        destruct (Room.isEmpty r'); cbn.
        -- by rewrite lookup_delete_ne.
        -- by rewrite lookup_insert_ne.
    + intros room' r0. destruct (Room.isEmpty r') eqn:Hempty; cbn.
      * intros Hr0. apply lookup_delete_Some in Hr0 as [_ Hr0]. by apply (Hne room' r0).
      * destruct (decide (room = room')) as [<-|Hdr].
        -- rewrite lookup_insert_eq. by intros [= <-].
        -- rewrite lookup_insert_ne by done. apply Hne.
  - assert (Hs : on_disconnect socketId c s = (s, [])).
    { unfold on_disconnect, with_room. by rewrite Hroom. }
    rewrite Hs. cbn [fst]. split.
    + intros socketId' c' room' Hc' Hroom'. cbn in Hc'.
      apply lookup_delete_Some in Hc' as [_ Hc']. by apply (Hreg socketId' c' room').
    + apply Hne.
Qed.

Lemma inv_step i s :
  conns_registered s ∧ no_empty_room s →
  conns_registered (step i s).1 ∧ no_empty_room (step i s).1.
Proof.
  intros Hinv. destruct i as [socketId|socketId env e]; cbn [step fst].
  - destruct Hinv as [Hreg Hne]. split; [|done].
    intros socketId' c' room Hc' Hroom. cbn in Hc'.
    destruct (decide (socketId = socketId')) as [<-|Hd].
    + rewrite lookup_insert_eq in Hc'. by injection Hc' as <-.
    + rewrite lookup_insert_ne in Hc' by done. by apply (Hreg socketId' c' room).
  - unfold handle. destruct (sockets s !! socketId) as [c|] eqn:Hc; [|done].
    assert (Hex : ∀ room, currentRoom c = Some room → is_Some (roomManager s !! room)).
    { intros room Hroom. destruct Hinv as [Hreg _].
      destruct (Hreg socketId c room Hc Hroom) as (_ & r & _ & Hr & _). by exists r. }
    destruct e.
    + by apply inv_join_room.
    + destruct (on_draw_start_frame socketId c strokeId points color width tool s)
        as (Hrm & Hso & _). by apply (inv_same s).
    + destruct (on_draw_continue_frame env socketId c strokeId points s)
        as (Hrm & Hso & _). by apply (inv_same s).
    + apply (inv_registry_update s); [apply on_draw_end_frame| |done].
      by apply on_draw_end_registry.
    + by rewrite on_cursor_move_frame.
    + apply (inv_registry_update s); [apply on_undo_frame| |done].
      by apply on_undo_registry.
    + apply (inv_registry_update s); [apply on_redo_frame| |done].
      by apply on_redo_registry.
    + pose proof (inv_disconnect socketId c s Hc Hinv) as H. cbn zeta in H.
      by destruct (on_disconnect socketId c s) as [s1 out].
Qed.

Lemma inv_run inputs :
  ∀ s, conns_registered s ∧ no_empty_room s →
       conns_registered (run inputs s).1 ∧ no_empty_room (run inputs s).1.
Proof.
  induction inputs as [|i inputs IH]; intros s Hinv; [done|].
  rewrite run_cons_fst. by apply IH, inv_step.
Qed.

(** X26.  In every state that the server reaches from its start, a joined
    connection is a user of its current room (the room is in the registry
    and holds, under the socket id, the user of [currentUser]), and no room
    of the registry is empty. *)
Theorem reachable_states_keep_membership inputs :
  conns_registered (run inputs init).1 ∧ no_empty_room (run inputs init).1.
Proof.
  apply inv_run. split.
  - intros socketId c room Hc. cbn in Hc. by rewrite lookup_empty in Hc.
  - intros room r Hr. cbn in Hr. unfold RoomManager.new in Hr.
    by rewrite lookup_empty in Hr.
Qed.

End Invariants.

(* ===================================================================== *)
(** * When undo and redo cancel; the client's preview of a stroke *)
(* ===================================================================== *)

Section RoundTrip.

Import DrawingState.

Lemma last_of_suffix (P : Command.t → Prop) (l1 : list Command.t) x l2 c :
  last (l1 ++ x :: l2) = Some c → Forall P (x :: l2) → P c.
Proof.
  rewrite last_app_cons. intros Hlast Hall.
  apply last_Some_elem_of in Hlast.
  by apply (proj1 (Forall_forall P (x :: l2)) Hall).
Qed.

(** The last entry of the log after [undo()] is undone when the last entry
    before was. *)
Lemma undo_last_undone (s : DrawingState.t) c :
  last (commandLog s) = Some c → Command.undone c = true →
  ∃ c', last (commandLog (undo s).2) = Some c' ∧ Command.undone c' = true.
Proof.
  intros Hlast Hc.
  destruct (undo_cases s) as [[_ ->]|(l1 & c0 & l2 & Hlog & Ha & Hall & ->)].
  - by exists c.
  - cbn [snd commandLog]. rewrite Hlog in Hlast.
    destruct l2 as [|x l2].
    + rewrite last_snoc in Hlast. injection Hlast as <-.
      unfold is_active in Ha. congruence.
    + exists c. split; [|done].
      rewrite last_app_cons, last_cons_cons in Hlast.
      by rewrite last_app_cons, last_cons_cons.
Qed.

(** X6.  [undo()] followed by [redo()] gives back the log it started from
    exactly when the log is empty or its last entry is active; with an
    undone command at the end, the [redo()] puts back that command, not
    the one just undone. *)
Theorem undo_then_redo_restores_iff_last_active (s : DrawingState.t) :
  (redo (undo s).2).2 = s
  ↔ ∀ c, last (commandLog s) = Some c → Command.undone c = false.
Proof.
  split.
  - intros Hrt c Hlast. destruct (Command.undone c) eqn:Hc; [exfalso|done].
    destruct (undo_last_undone s c Hlast Hc) as (c' & Hlast' & Hc').
    destruct (redo_cases (undo s).2)
      as [[Hall Hredo]|(l1 & d & l2 & Hlog & Hd & Hall & Hredo)].
    + apply last_Some_elem_of in Hlast'.
      pose proof (proj1 (Forall_forall _ _) Hall c' Hlast') as Hact.
      unfold is_active in Hact. congruence.
    + rewrite Hredo in Hrt. cbn [snd] in Hrt. rewrite <-Hrt in Hlast.
      cbn [commandLog] in Hlast.
      assert (Hact : is_active c).
      { apply (last_of_suffix is_active l1 (Command.set_undone false d) l2 c Hlast).
        by apply Forall_cons. }
      unfold is_active in Hact. congruence.
  - intros Hlast. destruct (last (commandLog s)) as [c0|] eqn:Hl.
    + apply last_Some in Hl as [l0 Hlog].
      apply (undo_redo_last_active s l0 c0 Hlog). by apply Hlast.
    + apply last_None in Hl. destruct s as [log idx]. cbn in Hl. by subst log.
Qed.

Lemma active_push_points_app p q (stroke : ActiveStroke.t) :
  ActiveStroke.push_points (p ++ q) stroke
  = ActiveStroke.push_points q (ActiveStroke.push_points p stroke).
Proof. unfold ActiveStroke.push_points. cbn. by rewrite app_assoc. Qed.

Lemma active_push_points_nil (stroke : ActiveStroke.t) :
  ActiveStroke.push_points [] stroke = stroke.
Proof. destruct stroke. unfold ActiveStroke.push_points. cbn. by rewrite app_nil_r. Qed.

Lemma preview_continues argLimit strokeId batches :
  ∀ cv stroke,
    Forall (λ newPoints : list Point.t, length newPoints ≤ argLimit) batches →
    CanvasManager.activeStrokes cv !! strokeId = Some stroke →
    let cv' :=
      foldl (λ cv newPoints,
               CanvasManager.handleRemoteDrawContinue argLimit strokeId newPoints cv)
        cv batches in
    CanvasManager.activeStrokes cv' !! strokeId
      = Some (ActiveStroke.push_points (concat batches) stroke)
    ∧ (∀ k, k ≠ strokeId →
         CanvasManager.activeStrokes cv' !! k = CanvasManager.activeStrokes cv !! k)
    ∧ CanvasManager.commandLog cv' = CanvasManager.commandLog cv
    ∧ CanvasManager.commandIndex cv' = CanvasManager.commandIndex cv.
Proof.
  induction batches as [|b batches IH]; intros cv stroke Hlen Hk; cbn zeta.
  - cbn. by rewrite active_push_points_nil.
  - apply Forall_cons in Hlen as [Hb Hlen]. cbn [foldl concat].
    set (cv1 := CanvasManager.handleRemoteDrawContinue argLimit strokeId b cv).
    assert (H1 : CanvasManager.activeStrokes cv1 !! strokeId
                 = Some (ActiveStroke.push_points b stroke)
                 ∧ (∀ k, k ≠ strokeId →
                      CanvasManager.activeStrokes cv1 !! k
                      = CanvasManager.activeStrokes cv !! k)
                 ∧ CanvasManager.commandLog cv1 = CanvasManager.commandLog cv
                 ∧ CanvasManager.commandIndex cv1 = CanvasManager.commandIndex cv).
    { unfold cv1, CanvasManager.handleRemoteDrawContinue. rewrite Hk.
      rewrite (proj2 (Nat.leb_le _ _) Hb). cbn.
      rewrite lookup_insert_eq. split_and!; try done.
      intros k Hne. by rewrite lookup_insert_ne. }
    destruct H1 as (Hk1 & Ho1 & Hl1 & Hi1).
    destruct (IH cv1 _ Hlen Hk1) as (Hk2 & Ho2 & Hl2 & Hi2).
    rewrite active_push_points_app. split_and!; try congruence.
    intros k Hne. by rewrite Ho2, Ho1.
Qed.

(** X27.  The preview of a remote stroke collects what the server
    collects: after the relayed [draw_start] and the relayed
    [draw_continue] batches, each of them small enough for the engine to
    take in one call, the client holds the stroke with the first points
    followed by the batches in order, and leaves its other strokes and
    its log as they are; [addCommand] with the committed command of that
    id then takes the stroke out of the preview. *)
Theorem remote_preview_collects_points
  argLimit strokeId firstPoints batches color width tool cv :
  Forall (λ newPoints : list Point.t, length newPoints ≤ argLimit) batches →
  let cv' :=
    foldl (λ cv newPoints,
             CanvasManager.handleRemoteDrawContinue argLimit strokeId newPoints cv)
      (CanvasManager.handleRemoteDrawStart strokeId (Some firstPoints) color width tool cv)
      batches in
  CanvasManager.activeStrokes cv' !! strokeId
    = Some (ActiveStroke.mk (firstPoints ++ concat batches) color width tool false)
  ∧ (∀ k, k ≠ strokeId →
       CanvasManager.activeStrokes cv' !! k = CanvasManager.activeStrokes cv !! k)
  ∧ CanvasManager.commandLog cv' = CanvasManager.commandLog cv
  ∧ CanvasManager.commandIndex cv' = CanvasManager.commandIndex cv
  ∧ ∀ command, Command.id command = strokeId →
      CanvasManager.activeStrokes (CanvasManager.addCommand command cv') !! strokeId
      = None.
Proof.
  intros Hlen. cbn zeta.
  set (cv0 := CanvasManager.handleRemoteDrawStart _ _ _ _ _ cv).
  assert (Hk0 : CanvasManager.activeStrokes cv0 !! strokeId
                = Some (ActiveStroke.mk firstPoints color width tool false)).
  { cbn. by rewrite lookup_insert_eq. }
  destruct (preview_continues argLimit strokeId batches cv0 _ Hlen Hk0)
    as (Hk & Ho & Hl & Hi).
  split_and!; try done.
  - intros k Hne. rewrite (Ho k Hne). cbn. by rewrite lookup_insert_ne.
  - intros command <-. cbn. apply lookup_delete_eq.
Qed.

Lemma remote_preview_collects_points_witness :
  Forall (λ newPoints : list Point.t, length newPoints ≤ 2)
    [[Point.mk 3%float 4%float]; []; [ex_point; ex_point]]
  ∧ CanvasManager.activeStrokes
      (foldl (λ cv newPoints,
                CanvasManager.handleRemoteDrawContinue 2 "k1" newPoints cv)
         (CanvasManager.handleRemoteDrawStart "k1" (Some [ex_point]) "#000000"
            4%float "brush" CanvasManager.new)
         [[Point.mk 3%float 4%float]; []; [ex_point; ex_point]]) !! "k1"
    = Some (ActiveStroke.mk
              ([ex_point] ++ concat [[Point.mk 3%float 4%float]; []; [ex_point; ex_point]])
              "#000000" 4%float "brush" false).
Proof.
  assert (Hlen : Forall (λ newPoints : list Point.t, length newPoints ≤ 2)
                   [[Point.mk 3%float 4%float]; []; [ex_point; ex_point]]).
  { repeat constructor. }
  split; [exact Hlen|].
  apply (remote_preview_collects_points 2 "k1" [ex_point] _ "#000000" 4%float "brush"
           CanvasManager.new Hlen).
Defined.

End RoundTrip.

(* ===================================================================== *)
(** * A whole gesture, among other inputs *)
(* ===================================================================== *)

Section Gesture.

Import Server.

Implicit Types (s : State) (c : Conn) (room strokeId socketId : string).












End Gesture.
